(** * The scanner engine runtime: I/O item planner, master cursor, worker driver

    A shallow embedding of [scanner/engine/runtime.cpp]:
    - [create_io_items], the planner that slices every task of a task set
      into I/O items and the matching load-work entries;
    - [MasterImpl]: the cursor served by [NextIOItem] and the order of the
      actions of [NewJob];
    - [WorkerImpl::NewJob]: kernel binding, the control loop that asks the
      master for work, and the driver that drains the pipeline.

    Integers.  The locals of the planner are [i64]; every value they take
    lies between 0 and the number of rows of a sample, and a protobuf
    repeated field holds fewer than 2^31 elements, so the arithmetic is
    exact and is written on [Z].  Conversions to [i32] that the source
    performs on sizes and differences are written out with [to_i32]. *)

From Stdlib Require Import ZArith Lia.
From stdpp Require Import base option list list_numbers sorting strings.

Local Open Scope Z_scope.

(** ** Machine integers *)

(** Conversion of an integer to a 32-bit signed one (two's complement). *)
Definition to_i32 (z : Z) : Z := (z + 2 ^ 31) mod 2 ^ 32 - 2 ^ 31.

Definition i32_range (z : Z) : Prop := - 2 ^ 31 <= z < 2 ^ 31.

(** ** Outcomes of fallible code *)

Inductive failure : Type :=
  | AssertFailed      (* an [assert] does not hold: the process aborts *)
  | OutOfBounds       (* an element is read outside its container *)
  | Diverges          (* a loop that never ends *)
  | LogFatal          (* [LOG(FATAL)] *)
  | DivideByZero      (* [%] with a zero divisor *)
  | ExitFailure.      (* [exit(EXIT_FAILURE)] *)

Inductive result (A : Type) : Type :=
  | Ok (a : A)
  | Err (f : failure).
Arguments Ok {A} a.
Arguments Err {A} f.

Definition bind {A B} (m : result A) (k : A -> result B) : result B :=
  match m with
  | Ok a => k a
  | Err f => Err f
  end.

Notation "'do' x <- m ; k" := (bind m (fun x => k))
  (at level 10, x pattern, m at level 100, k at level 200).

(** [collect f l] runs [f] on the elements of [l] from left to right and
    stops at the first failure: a range-for loop that appends one result per
    element. *)
Fixpoint collect {A B} (f : A -> result B) (l : list A) : result (list B) :=
  match l with
  | [] => Ok []
  | x :: l' => do y <- f x; do ys <- collect f l'; Ok (y :: ys)
  end.

Definition is_ok {A} (r : result A) : bool :=
  match r with Ok _ => true | Err _ => false end.

(** ** Data model *)

(** The protobuf messages the engine reads. *)
Module proto.

Record TableSample : Type := mkTableSample {
  job_id : Z;
  table_id : Z;
  column_ids : list Z;
  rows : list Z
}.

Record Task : Type := mkTask {
  samples : list TableSample
}.

Inductive DeviceType : Type :=
  | CPU
  | GPU
  | UnknownDevice (tag : Z).

Record EvaluatorInput : Type := mkEvaluatorInput {
  evaluator_index : Z;
  columns : list string
}.

Record Evaluator : Type := mkEvaluator {
  name : string;
  device_type : DeviceType;
  device_count : Z;
  kernel_args : list Z;
  inputs : list EvaluatorInput
}.

Record TaskSet : Type := mkTaskSet {
  tasks : list Task;
  evaluators : list Evaluator
}.

Record JobParameters : Type := mkJobParameters {
  job_name : string;
  task_set : TaskSet
}.

End proto.

Record IOItem : Type := mkIOItem {
  table_id : Z;
  item_id : Z;
  start_row : Z;
  end_row : Z
}.

Record LoadWorkEntry : Type := mkLoadWorkEntry {
  io_item_index : Z;
  samples : list proto.TableSample
}.

(** ** The planner: [create_io_items] *)

Section Planner.

(** [rows_per_io_item()], the process-wide IO_ITEM_SIZE. *)
Variable io_item_size : Z.

(** The source binds [warmup_size] to 0 at the head of the function; it is
    kept as a parameter here so that the arithmetic that uses it is
    verified for every value.  [create_io_items] below is the instance at
    0. *)
Variable warmup_size : Z.

(** [sample.rows(s)]: reading outside the repeated field is undefined. *)
Definition sample_row (sample : proto.TableSample) (s : Z) : result Z :=
  if s <? 0 then Err OutOfBounds
  else match proto.rows sample !! Z.to_nat s with
       | Some r => Ok r
       | None => Err OutOfBounds
       end.

(** [for (; s < e; ++s) load_sample->add_rows(sample.rows(s));] *)
Definition add_rows (sample : proto.TableSample) (s e : Z) : result (list Z) :=
  collect (sample_row sample) (seqZ s (e - s)).

(** The body of the loop over the samples of a task: one load sample. *)
Definition load_sample (allocated_rows rows_to_allocate : Z)
    (sample : proto.TableSample) : result proto.TableSample :=
  let e := allocated_rows + rows_to_allocate in
  let s := Z.max (allocated_rows - warmup_size) 0 in
  do rs <- add_rows sample s e;
  Ok (proto.mkTableSample (proto.job_id sample) (proto.table_id sample)
        (proto.column_ids sample) rs).

(** [while (allocated_rows < rows_in_task) { ... }] for task [i].  [fuel]
    bounds the number of iterations; running out of it is [Diverges]. *)
Fixpoint allocate (fuel : nat) (i : Z) (task : proto.Task)
    (rows_in_task item_id allocated_rows : Z)
    (io_items : list IOItem) (load_work_entries : list LoadWorkEntry)
    : result (list IOItem * list LoadWorkEntry) :=
  if allocated_rows <? rows_in_task then
    match fuel with
    | O => Err Diverges
    | S fuel' =>
        let rows_to_allocate :=
          Z.min io_item_size (rows_in_task - allocated_rows) in
        let item :=
          mkIOItem i item_id allocated_rows (allocated_rows + rows_to_allocate) in
        let io_items := io_items ++ [item] in
        do load_samples <-
          collect (load_sample allocated_rows rows_to_allocate)
                  (proto.samples task);
        let load_item :=
          mkLoadWorkEntry (Z.of_nat (length io_items) - 1) load_samples in
        allocate fuel' i task rows_in_task (item_id + 1)
                 (allocated_rows + rows_to_allocate)
                 io_items (load_work_entries ++ [load_item])
    end
  else Ok (io_items, load_work_entries).

(** [for (size_t i = 0; i < tasks.size(); ++i) { ... }].  The while loop of
    a task with [rows_in_task] rows ends within [rows_in_task] iterations
    whenever it ends at all (see [allocate_stuck]), which is the fuel it
    gets. *)
Fixpoint plan_tasks (i : Z) (tasks : list proto.Task)
    (io_items : list IOItem) (load_work_entries : list LoadWorkEntry)
    : result (list IOItem * list LoadWorkEntry) :=
  match tasks with
  | [] => Ok (io_items, load_work_entries)
  | task :: tasks' =>
      match proto.samples task with
      | [] => Err AssertFailed
      | sample0 :: _ =>
          let rows_in_task := Z.of_nat (length (proto.rows sample0)) in
          do r <- allocate (Z.to_nat rows_in_task) i task rows_in_task 0 0
                           io_items load_work_entries;
          plan_tasks (i + 1) tasks' (fst r) (snd r)
      end
  end.

(** The function with its two output vectors passed by reference: the
    items and entries are appended to the vectors it is given. *)
Definition create_io_items_with_warmup (task_set : proto.TaskSet)
    (io_items : list IOItem) (load_work_entries : list LoadWorkEntry)
    : result (list IOItem * list LoadWorkEntry) :=
  plan_tasks 0 (proto.tasks task_set) io_items load_work_entries.

End Planner.

(** [create_io_items] as the source has it: [warmup_size = 0]. *)
Definition create_io_items (io_item_size : Z) (task_set : proto.TaskSet)
    (io_items : list IOItem) (load_work_entries : list LoadWorkEntry)
    : result (list IOItem * list LoadWorkEntry) :=
  create_io_items_with_warmup io_item_size 0 task_set io_items load_work_entries.

(** The planning step of [MasterImpl::NewJob]: two fresh vectors are
    declared and handed to [create_io_items]. *)
Definition Master_plan (io_item_size : Z) (job_params : proto.JobParameters)
    : result (list IOItem * list LoadWorkEntry) :=
  let io_items := [] in
  let load_work_entries := [] in
  create_io_items io_item_size (proto.task_set job_params)
                  io_items load_work_entries.

(** The planning step of [WorkerImpl::NewJob], written the same way. *)
Definition Worker_plan (io_item_size : Z) (job_params : proto.JobParameters)
    : result (list IOItem * list LoadWorkEntry) :=
  let io_items := [] in
  let load_work_entries := [] in
  create_io_items io_item_size (proto.task_set job_params)
                  io_items load_work_entries.

(** A task set of one task with one sample, which reads the [n] rows
    100, 101, ... of table 7 of job 3. *)
Definition one_sample (rs : list Z) : proto.TableSample :=
  proto.mkTableSample 3 7 [0; 1] rs.

Definition single_task (n : Z) : proto.TaskSet :=
  proto.mkTaskSet [proto.mkTask [one_sample (seqZ 100 n)]] [].

(** A job on that task set with a decoder as its only evaluator. *)
Definition single_task_job (n : Z) : proto.JobParameters :=
  proto.mkJobParameters "job"
    (proto.mkTaskSet (proto.tasks (single_task n))
       [proto.mkEvaluator "decode" proto.CPU 1 [] []]).

(** Two task sets used below: a task whose samples have 1 and 2 rows, and a
    task without samples after a task of three rows. *)
Definition uneven_task : proto.TaskSet :=
  proto.mkTaskSet
    [proto.mkTask [one_sample [10]; one_sample [20; 21]]] [].

Definition no_samples_task : proto.TaskSet :=
  proto.mkTaskSet
    [proto.mkTask [one_sample [10; 11; 12]]; proto.mkTask []] [].

(** ** The master *)

(** The part of [MasterImpl] the engine's protocol depends on: the cursor,
    the number of items of the active job, and the registered workers (by
    address). *)
Record MasterImpl : Type := mkMasterImpl {
  next_io_item_to_allocate_ : Z;
  num_io_items_ : Z;
  workers_ : list string
}.

(** The constructor. *)
Definition MasterImpl_new : MasterImpl := mkMasterImpl 0 0 [].

Definition RegisterWorker (m : MasterImpl) (address : string) : MasterImpl :=
  mkMasterImpl (next_io_item_to_allocate_ m) (num_io_items_ m)
               (workers_ m ++ [address]).

(** [NextIOItem]: the new state of the master and the [item_id] of the
    reply.  The increment cannot overflow: it is taken below
    [num_io_items_]. *)
Definition NextIOItem (m : MasterImpl) : MasterImpl * Z :=
  if next_io_item_to_allocate_ m <? num_io_items_ m then
    (mkMasterImpl (next_io_item_to_allocate_ m + 1) (num_io_items_ m) (workers_ m),
     next_io_item_to_allocate_ m)
  else (m, -1).

(** [calls n m]: the replies to [n] successive calls, and the master after
    them. *)
Fixpoint calls (n : nat) (m : MasterImpl) : MasterImpl * list Z :=
  match n with
  | O => (m, [])
  | S n' =>
      let r := NextIOItem m in
      let rs := calls n' (fst r) in
      (fst rs, snd r :: snd rs)
  end.

(** *** The store as the master uses it *)

Record Column : Type := mkColumn {
  col_id : Z;
  col_name : string
  (* the type is always [ColumnType::None] *)
}.

Record JobDescriptor : Type := mkJobDescriptor {
  jd_id : option Z;              (* unset until the job id is allocated *)
  jd_name : option string;
  jd_io_item_size : Z;
  jd_work_item_size : Z;
  jd_num_nodes : Z;
  jd_columns : list Column;
  jd_tasks : list proto.Task
}.

Record DatabaseMetadata : Type := mkDatabaseMetadata {
  next_job_id : Z;
  job_names : list (Z * string)
}.

(** Modelled from the spec: [DatabaseMetadata::add_job] is declared in
    [scanner/engine/db.h], which is not among the sources.  The manifest
    lists all jobs by name and assigns monotonic job ids: the new job gets
    the next id and is appended. *)
Definition add_job (meta : DatabaseMetadata) (job_name : string)
    : Z * DatabaseMetadata :=
  (next_job_id meta,
   mkDatabaseMetadata (next_job_id meta + 1)
                      (job_names meta ++ [(next_job_id meta, job_name)])).

(** What the store holds for the master: the manifest and the descriptors
    written so far. *)
Record Storage : Type := mkStorage {
  database_metadata : DatabaseMetadata;
  job_descriptors : list JobDescriptor
}.

Definition write_database_metadata (st : Storage) (meta : DatabaseMetadata)
    : Storage :=
  mkStorage meta (job_descriptors st).

Definition write_job_metadata (st : Storage) (d : JobDescriptor) : Storage :=
  mkStorage (database_metadata st) (job_descriptors st ++ [d]).

(** The status a [Worker::NewJob] call returns. *)
Inductive Status : Type := StatusOK | StatusError (code : Z).

(** What the thread of [MasterImpl::NewJob] does, in program order.
    [Joined w st] is the return of [r.join()] for the request to worker [w],
    whose call returned [st]. *)
Inductive master_action : Type :=
  | Planned (n : nat)
  | Spawned (w : nat)
  | Joined (w : nat) (st : Status)
  | ReadDatabaseMetadata
  | WroteDatabaseMetadata (job_id : Z)
  | WroteJobMetadata (job_id : Z).

Section Master.

Variable io_item_size : Z.     (* rows_per_io_item() *)
Variable work_item_size : Z.   (* rows_per_work_item() *)

(** [get_evaluator_info(name)->output_columns()] of the evaluator
    registry, which is not among the sources. *)
Variable output_columns : string -> result (list string).

(** The reply of worker [w] to the fanned-out [NewJob]. *)
Variable worker_reply : nat -> Status.

Definition descriptor_columns (cols : list string) : list Column :=
  imap (fun i c => mkColumn (Z.of_nat i) c) cols.

(** [MasterImpl::NewJob].  The result is the master, the store and the
    log of the actions of the call. *)
Definition Master_NewJob (m : MasterImpl) (st : Storage)
    (job_params : proto.JobParameters)
    : result (MasterImpl * Storage * list master_action) :=
  let evaluators := proto.evaluators (proto.task_set job_params) in
  do last_evaluator <-
    match last evaluators with
    | Some ev => Ok ev
    | None => Err OutOfBounds
    end;
  do cols <- output_columns (proto.name last_evaluator);
  let job_descriptor :=
    mkJobDescriptor None None io_item_size work_item_size
      (Z.of_nat (length (workers_ m))) (descriptor_columns cols)
      (proto.tasks (proto.task_set job_params)) in
  do planned <- Master_plan io_item_size job_params;
  let m' :=
    mkMasterImpl (next_io_item_to_allocate_ m)
                 (to_i32 (Z.of_nat (length (fst planned)))) (workers_ m) in
  let requests := imap (fun w _ => Spawned w) (workers_ m) in
  let joins := imap (fun w _ => Joined w (worker_reply w)) (workers_ m) in
  let meta := database_metadata st in
  let added := add_job meta (proto.job_name job_params) in
  let job_id := fst added in
  let st1 := write_database_metadata st (snd added) in
  let job_descriptor :=
    mkJobDescriptor (Some job_id) (Some (proto.job_name job_params))
      (jd_io_item_size job_descriptor) (jd_work_item_size job_descriptor)
      (jd_num_nodes job_descriptor) (jd_columns job_descriptor)
      (jd_tasks job_descriptor) in
  let st2 := write_job_metadata st1 job_descriptor in
  Ok (m', st2,
      [Planned (length (fst planned))] ++ requests ++ joins ++
      [ReadDatabaseMetadata; WroteDatabaseMetadata job_id;
       WroteJobMetadata job_id]).

End Master.

(** *** [NewJob], step by step *)

(** What a call of [NewJob] has got to: the master, the store, and the
    actions of the call so far. *)
Record master_run : Type := mkMasterRun {
  run_master : MasterImpl;
  run_storage : Storage;
  run_log : list master_action
}.

(** A piece of the body of [NewJob]: from the state it is started in, the
    state it gets to, and the value it yields, or the failure that stops
    the call there. *)
Definition steps (A : Type) : Type := master_run -> master_run * result A.

Definition then_ {A B} (c : steps A) (k : A -> steps B) : steps B :=
  fun r =>
    match c r with
    | (r', Ok a) => k a r'
    | (r', Err f) => (r', Err f)
    end.

Notation "'perform' x <- c ; k" := (then_ c (fun x => k))
  (at level 10, x pattern, c at level 100, k at level 200).

(** A computation on locals: it touches neither the master nor the store. *)
Definition compute {A} (v : result A) : steps A := fun r => (r, v).

(** Reading a member or the store. *)
Definition inspect {A} (f : master_run -> A) : steps A :=
  fun r => (r, Ok (f r)).

Definition act (l : list master_action) : steps unit :=
  fun r =>
    (mkMasterRun (run_master r) (run_storage r) (run_log r ++ l), Ok tt).

Definition set_num_io_items_ (n : Z) : steps unit :=
  fun r =>
    (mkMasterRun
       (mkMasterImpl (next_io_item_to_allocate_ (run_master r)) n
                     (workers_ (run_master r)))
       (run_storage r) (run_log r),
     Ok tt).

Definition on_storage (f : Storage -> Storage) : steps unit :=
  fun r => (mkMasterRun (run_master r) (f (run_storage r)) (run_log r), Ok tt).

Section MasterSteps.

Variable io_item_size : Z.     (* rows_per_io_item() *)
Variable work_item_size : Z.   (* rows_per_work_item() *)
Variable output_columns : string -> result (list string).
Variable worker_reply : nat -> Status.

(** [MasterImpl::NewJob] statement by statement, in the order of the
    source: the descriptor's constants and the number of workers, the
    look-up of the last evaluator and of its output columns, the planning,
    [num_io_items_], the requests and their joins, the manifest, the
    descriptor.  The state in which a failure stops the call tells what the
    call had done by then. *)
Definition Master_NewJob_steps (job_params : proto.JobParameters)
    : steps unit :=
  perform workers <- inspect (fun r => workers_ (run_master r));
  let evaluators := proto.evaluators (proto.task_set job_params) in
  perform last_evaluator <-
    compute match last evaluators with
            | Some ev => Ok ev
            | None => Err OutOfBounds
            end;
  perform cols <- compute (output_columns (proto.name last_evaluator));
  let job_descriptor :=
    mkJobDescriptor None None io_item_size work_item_size
      (Z.of_nat (length workers)) (descriptor_columns cols)
      (proto.tasks (proto.task_set job_params)) in
  perform planned <- compute (Master_plan io_item_size job_params);
  perform _ <- set_num_io_items_ (to_i32 (Z.of_nat (length (fst planned))));
  perform _ <- act [Planned (length (fst planned))];
  perform _ <- act (imap (fun w _ => Spawned w) workers);
  perform _ <- act (imap (fun w _ => Joined w (worker_reply w)) workers);
  perform meta <- inspect (fun r => database_metadata (run_storage r));
  perform _ <- act [ReadDatabaseMetadata];
  let added := add_job meta (proto.job_name job_params) in
  let job_id := fst added in
  perform _ <- on_storage (fun st => write_database_metadata st (snd added));
  perform _ <- act [WroteDatabaseMetadata job_id];
  let job_descriptor :=
    mkJobDescriptor (Some job_id) (Some (proto.job_name job_params))
      (jd_io_item_size job_descriptor) (jd_work_item_size job_descriptor)
      (jd_num_nodes job_descriptor) (jd_columns job_descriptor)
      (jd_tasks job_descriptor) in
  perform _ <- on_storage (fun st => write_job_metadata st job_descriptor);
  act [WroteJobMetadata job_id].

End MasterSteps.

(** ** The worker *)

Record DeviceHandle : Type := mkDeviceHandle {
  dev_type : proto.DeviceType;
  dev_id : Z
}.

(** [Kernel::Config]. *)
Record KernelConfig : Type := mkKernelConfig {
  args : list Z;
  input_columns : list string;
  devices : list DeviceHandle
}.

(** The stages of the pipeline and the queues between them. *)
Inductive stage : Type := Load | PreEval | Eval | PostEval | Save.

Inductive queue : Type :=
  | load_work
  | initial_eval_work
  | eval_work (pu : Z) (k : Z)
  | save_work.

Global Instance stage_eq_dec : EqDecision stage.
Proof. solve_decision. Defined.

Global Instance queue_eq_dec : EqDecision queue.
Proof. solve_decision. Defined.

(** What the thread of [WorkerImpl::NewJob] does to the pipeline.
    [Push q k] puts an entry whose [io_item_index] is [k] into [q]; -1 is
    the sentinel. *)
Inductive worker_action : Type :=
  | Create (s : stage) (i : Z)
  | Push (q : queue) (io_item_index : Z)
  | Join (s : stage) (i : Z).

(** What one turn of the control loop did. *)
Inductive turn : Type :=
  | Yielded                     (* enough work in flight: no request *)
  | Accepted (next_item : Z)    (* an item was pushed to the load queue *)
  | NoMoreWork.                 (* the master answered -1: [break] *)

(** The variables the control loop works on.  [load_pushed] lists the
    entries pushed into the load queue so far. *)
Record control : Type := mkControl {
  accepted_items : Z;
  retired_items : Z;
  load_pushed : list LoadWorkEntry;
  master : MasterImpl
}.

Section Worker.

(** Process-wide constants, defined outside the sources. *)
Variable CPU_DEVICE : DeviceHandle.
Variable GPU_DEVICE_IDS : list Z.
Variable LOAD_WORKERS_PER_NODE : Z.
Variable PUS_PER_NODE : Z.
Variable SAVE_WORKERS_PER_NODE : Z.
Variable TASKS_IN_QUEUE_PER_PU : Z.

(** The two registries, defined outside the sources: a lookup gives a
    value or is fatal. *)
Variable KernelFactory : Type.
Variable get_kernel : string -> proto.DeviceType -> result KernelFactory.
Variable EvaluatorInfo : Type.
Variable get_evaluator_info : string -> result EvaluatorInfo.

(** *** Kernel binding *)

(** [for (i32 i = 0; i < n; ++i) body(i)], for a body that yields one
    value per turn. *)
Definition for_i32 {A} (n : Z) (body : Z -> result A) : result (list A) :=
  collect body (seqZ 0 n).

(** The devices of an evaluator: the [if] on [device_type]. *)
Definition kernel_devices (num_gpus : Z) (evaluator : proto.Evaluator)
    : result (list DeviceHandle) :=
  let device_type := proto.device_type evaluator in
  match device_type with
  | proto.CPU => Ok [CPU_DEVICE]
  | proto.GPU =>
      for_i32 (proto.device_count evaluator) (fun i =>
        if num_gpus =? 0 then Err DivideByZero
        else
          let device_id := Z.rem i num_gpus in
          Ok (mkDeviceHandle device_type device_id))
  | proto.UnknownDevice _ => Err LogFatal
  end.

(** [evaluators.Get(index)]. *)
Definition get_evaluator (evaluators : list proto.Evaluator) (index : Z)
    : result proto.Evaluator :=
  if index <? 0 then Err OutOfBounds
  else match evaluators !! Z.to_nat index with
       | Some ev => Ok ev
       | None => Err OutOfBounds
       end.

(** The loop over the inputs of an evaluator: the input's evaluator is
    looked up in the registry, and the input's columns are appended. *)
Definition kernel_input_columns (evaluators : list proto.Evaluator)
    (evaluator : proto.Evaluator) : result (list string) :=
  do cols <- collect (fun input =>
      do input_evaluator <-
        get_evaluator evaluators (proto.evaluator_index input);
      do _ <- get_evaluator_info (proto.name input_evaluator);
      Ok (proto.columns input)) (proto.inputs evaluator);
  Ok (concat cols).

(** The body of the loop over the evaluators. *)
Definition bind_kernel (num_gpus : Z) (evaluators : list proto.Evaluator)
    (evaluator : proto.Evaluator) : result (KernelFactory * KernelConfig) :=
  do kernel_factory <-
    get_kernel (proto.name evaluator) (proto.device_type evaluator);
  do cols <- kernel_input_columns evaluators evaluator;
  do devs <- kernel_devices num_gpus evaluator;
  Ok (kernel_factory, mkKernelConfig (proto.kernel_args evaluator) cols devs).

Definition bind_kernels (job_params : proto.JobParameters)
    : result (list (KernelFactory * KernelConfig)) :=
  let num_gpus := to_i32 (Z.of_nat (length GPU_DEVICE_IDS)) in
  let evaluators := proto.evaluators (proto.task_set job_params) in
  collect (bind_kernel num_gpus evaluators) evaluators.

(** *** Launching the pipeline *)

(** A counted loop whose body only acts on the pipeline. *)
Definition repeat_i32 (n : Z) (body : Z -> list worker_action)
    : list worker_action :=
  concat (body <$> seqZ 0 n).

(** The queue a thread of a stage pops from, as its arguments are set up. *)
Definition input_queue (s : stage) (i : Z) : queue :=
  match s with
  | Load => load_work
  | PreEval => initial_eval_work
  | Eval => eval_work i 1
  | PostEval => eval_work i 2
  | Save => save_work
  end.

(** The queue it pushes to; the save stage writes to the store. *)
Definition output_queue (s : stage) (i : Z) : option queue :=
  match s with
  | Load => Some initial_eval_work
  | PreEval => Some (eval_work i 0)
  | Eval => Some (eval_work i 2)
  | PostEval => Some save_work
  | Save => None
  end.

(** The [pthread_create] calls, in order. *)
Definition launch : list worker_action :=
  repeat_i32 LOAD_WORKERS_PER_NODE (fun i => [Create Load i]) ++
  repeat_i32 PUS_PER_NODE (fun pu =>
    [Create PreEval pu; Create Eval pu; Create PostEval pu]) ++
  repeat_i32 SAVE_WORKERS_PER_NODE (fun i => [Create Save i]).

(** *** The control loop *)

(** [load_work_entries[next_item]]. *)
Definition entry_at (load_work_entries : list LoadWorkEntry) (next_item : Z)
    : result LoadWorkEntry :=
  if next_item <? 0 then Err OutOfBounds
  else match load_work_entries !! Z.to_nat next_item with
       | Some e => Ok e
       | None => Err OutOfBounds
       end.

(** One turn of [while (true) { ... }]. *)
Definition control_turn (load_work_entries : list LoadWorkEntry)
    (c : control) : result (turn * control) :=
  let local_work := to_i32 (accepted_items c - retired_items c) in
  if local_work <? PUS_PER_NODE * TASKS_IN_QUEUE_PER_PU then
    let reply := NextIOItem (master c) in
    let next_item := snd reply in
    if next_item =? -1 then
      Ok (NoMoreWork,
          mkControl (accepted_items c) (retired_items c) (load_pushed c)
                    (fst reply))
    else
      do entry <- entry_at load_work_entries next_item;
      Ok (Accepted next_item,
          mkControl (accepted_items c + 1) (retired_items c)
                    (load_pushed c ++ [entry]) (fst reply))
  else Ok (Yielded, c).

(** Modelled from the spec: the save threads and the other workers are not
    among the sources.  This is what the rest of the system does between
    two turns of the loop: the save stage increments [retired_items] once
    per entry it has written, so the counter grows and stays at most
    [accepted_items]; other workers call [NextIOItem] on the same master. *)
Definition others_step (c c' : control) : Prop :=
  accepted_items c' = accepted_items c /\
  load_pushed c' = load_pushed c /\
  retired_items c <= retired_items c' <= accepted_items c /\
  exists n, master c' = fst (calls n (master c)).

(** The states the loop goes through, from the declarations of
    [accepted_items] and [retired_items]. *)
Inductive reachable (load_work_entries : list LoadWorkEntry)
    : control -> Prop :=
  | reach_start m :
      reachable load_work_entries (mkControl 0 0 [] m)
  | reach_others c c' :
      reachable load_work_entries c -> others_step c c' ->
      reachable load_work_entries c'
  | reach_turn c t c' :
      reachable load_work_entries c ->
      control_turn load_work_entries c = Ok (t, c') ->
      reachable load_work_entries c'.

(** *** Draining the pipeline *)

(** The error code of [pthread_join] on thread [i] of a stage. *)
Variable pthread_join : stage -> Z -> Z.

(** The log of a piece of the driver, and whether it left through
    [exit(EXIT_FAILURE)]. *)
Definition driver : Type := (list worker_action * bool)%type.

Definition and_then (a b : driver) : driver :=
  if snd a then a else (fst a ++ fst b, snd b).

Definition pushes (n : Z) (q : Z -> queue) : driver :=
  (repeat_i32 n (fun i => [Push (q i) (-1)]), false).

(** A loop of joins: it stops at the first one that fails. *)
Fixpoint joins_from (s : stage) (threads : list Z) : driver :=
  match threads with
  | [] => ([], false)
  | i :: threads' =>
      if pthread_join s i =? 0
      then and_then ([Join s i], false) (joins_from s threads')
      else ([Join s i], true)
  end.

Definition joins (s : stage) (n : Z) : driver := joins_from s (seqZ 0 n).

(** The code between the control loop and the profiler output. *)
Definition drain : driver :=
  and_then (pushes LOAD_WORKERS_PER_NODE (fun _ => load_work))
 (and_then (joins Load LOAD_WORKERS_PER_NODE)
 (and_then (pushes PUS_PER_NODE (fun _ => initial_eval_work))
 (and_then (joins PreEval PUS_PER_NODE)
 (and_then (pushes PUS_PER_NODE (fun pu => eval_work pu 1))
 (and_then (joins Eval PUS_PER_NODE)
 (and_then (pushes PUS_PER_NODE (fun pu => eval_work pu 2))
 (and_then (joins PostEval PUS_PER_NODE)
 (and_then (pushes SAVE_WORKERS_PER_NODE (fun _ => save_work))
           (joins Save SAVE_WORKERS_PER_NODE))))))))).

End Worker.

(** *** The profiler file *)

(** What is written to the profiler file, in order: the integers that
    [s_write] puts out, by width, and one record per profiler
    ([write_profiler_to_file], with the rank, the component, the tag and the
    index it is given). *)
Inductive profiler_write : Type :=
  | write_i64 (v : Z)
  | write_u8 (v : Z)
  | write_profiler (rank : Z) (component tag : string) (index : Z).

(** Conversion of an integer to a [u8]. *)
Definition to_u8 (z : Z) : Z := z mod 256.

(** A counted loop whose body only writes. *)
Definition repeat_writes (n : Z) (body : Z -> list profiler_write)
    : list profiler_write :=
  concat (body <$> seqZ 0 n).

(** The end of [WorkerImpl::NewJob], from the two timestamps to the last
    profiler of the save threads. *)
Definition write_profile (LOAD_WORKERS_PER_NODE PUS_PER_NODE
    SAVE_WORKERS_PER_NODE : Z) (node_id_ start_time_ns end_time_ns : Z)
    : list profiler_write :=
  let out_rank := node_id_ in
  let load_worker_count := to_u8 LOAD_WORKERS_PER_NODE in
  let eval_worker_count := to_u8 PUS_PER_NODE in
  let profilers_per_chain := to_u8 3 in
  let save_worker_count := to_u8 SAVE_WORKERS_PER_NODE in
  [write_i64 start_time_ns; write_i64 end_time_ns] ++
  [write_u8 load_worker_count] ++
  repeat_writes LOAD_WORKERS_PER_NODE (fun i =>
    [write_profiler out_rank "load" "" i]) ++
  [write_u8 eval_worker_count] ++
  [write_u8 profilers_per_chain] ++
  repeat_writes PUS_PER_NODE (fun pu =>
    let i := pu in
    [write_profiler out_rank "eval" "pre" i;
     write_profiler out_rank "eval" "eval" i;
     write_profiler out_rank "eval" "post" i]) ++
  [write_u8 save_worker_count] ++
  repeat_writes SAVE_WORKERS_PER_NODE (fun i =>
    [write_profiler out_rank "save" "" i]).

(** ** Vocabulary of the statements *)

(** The rows an item covers, in order. *)
Definition item_rows (it : IOItem) : list Z :=
  seqZ (start_row it) (end_row it - start_row it).

(** The items of the task at index [j], in the order they were produced. *)
Definition items_of_task (j : Z) (items : list IOItem) : list IOItem :=
  filter (fun it => table_id it = j) items.

(** [chained a its n]: the items of [its] are non-empty ranges, the first
    starts at [a], each next one starts where the previous one ends, and the
    last ends at [n]. *)
Fixpoint chained (a : Z) (its : list IOItem) (n : Z) : Prop :=
  match its with
  | [] => a = n
  | it :: its' =>
      start_row it = a /\ a < end_row it /\ chained (end_row it) its' n
  end.

(** The number of rows of a task: that of its first sample. *)
Definition rows_in_task (task : proto.Task) : Z :=
  match proto.samples task with
  | [] => 0
  | sample0 :: _ => Z.of_nat (length (proto.rows sample0))
  end.

(** A task has a sample, and no sample is shorter than the first. *)
Definition covered (task : proto.Task) : Prop :=
  proto.samples task <> [] /\
  Forall (fun s => rows_in_task task <= Z.of_nat (length (proto.rows s)))
         (proto.samples task).

(** The rows of a sample at positions [s], ..., [e - 1]. *)
Definition window (s e : Z) (sample : proto.TableSample) : list Z :=
  take (Z.to_nat (e - s)) (drop (Z.to_nat s) (proto.rows sample)).

(** The load sample the planner makes of [sample] for the range
    [start, end) with [warmup] rows of context. *)
Definition windowed (warmup start_ end_ : Z) (sample : proto.TableSample)
    : proto.TableSample :=
  proto.mkTableSample (proto.job_id sample) (proto.table_id sample)
    (proto.column_ids sample)
    (window (Z.max (start_ - warmup) 0) end_ sample).

(** The entry made for an item holds, for each sample of the task and in
    the same order, the window of its rows: [end - max (start - warmup) 0]
    of them. *)
Definition entry_matches (warmup_size : Z) (task : proto.Task) (it : IOItem)
    (e : LoadWorkEntry) : Prop :=
  samples e
  = windowed warmup_size (start_row it) (end_row it) <$> proto.samples task /\
  Forall (fun ls =>
    Z.of_nat (length (proto.rows ls))
    = end_row it - Z.max (start_row it - warmup_size) 0) (samples e).

(** The graph of the while loop of task [i]: the items and entries it
    appends from the state [(item_id, allocated_rows)], when the output
    already holds [base] items. *)
Inductive slices (io_item_size warmup_size : Z) (i : Z) (task : proto.Task)
    (n : Z) : Z -> Z -> Z -> list IOItem -> list LoadWorkEntry -> Prop :=
  | slices_done id a base :
      n <= a ->
      slices io_item_size warmup_size i task n id a base [] []
  | slices_step id a base r ls items entries :
      a < n ->
      r = Z.min io_item_size (n - a) ->
      collect (load_sample warmup_size a r) (proto.samples task) = Ok ls ->
      slices io_item_size warmup_size i task n (id + 1) (a + r) (base + 1)
             items entries ->
      slices io_item_size warmup_size i task n id a base
             (mkIOItem i id a (a + r) :: items)
             (mkLoadWorkEntry base ls :: entries).

(** The graph of the loop over the tasks. *)
Inductive planned (io_item_size warmup_size : Z)
    : Z -> list proto.Task -> Z -> list IOItem -> list LoadWorkEntry -> Prop :=
  | planned_nil i base :
      planned io_item_size warmup_size i [] base [] []
  | planned_cons i task tasks base items entries items' entries' :
      proto.samples task <> [] ->
      slices io_item_size warmup_size i task (rows_in_task task) 0 0 base
             items entries ->
      planned io_item_size warmup_size (i + 1) tasks
              (base + Z.of_nat (length items)) items' entries' ->
      planned io_item_size warmup_size i (task :: tasks) base
              (items ++ items') (entries ++ entries').

(** The sentinels a log pushes into the queue the threads of stage [s] pop
    from, and the threads of [s] a log creates. *)
Definition queue_pu (q : queue) : Z :=
  match q with
  | eval_work pu _ => pu
  | _ => 0
  end.

Definition feeds (s : stage) (q : queue) : bool :=
  bool_decide (q = input_queue s (queue_pu q)).

Definition is_sentinel_for (s : stage) (a : worker_action) : bool :=
  match a with
  | Push q k => feeds s q && (k =? -1)
  | _ => false
  end.

Definition is_thread_of (s : stage) (a : worker_action) : bool :=
  match a with
  | Create s' _ => bool_decide (s' = s)
  | _ => false
  end.

Definition count_actions (p : worker_action -> bool) (log : list worker_action)
    : nat :=
  length (filter (fun a => p a = true) log).

(** The number of threads of a stage. *)
Definition stage_threads (LOAD_WORKERS_PER_NODE PUS_PER_NODE
    SAVE_WORKERS_PER_NODE : Z) (s : stage) : Z :=
  match s with
  | Load => LOAD_WORKERS_PER_NODE
  | PreEval | Eval | PostEval => PUS_PER_NODE
  | Save => SAVE_WORKERS_PER_NODE
  end.

(** A registry in which every evaluator outputs one column. *)
Definition frame_columns (name : string) : result (list string) :=
  Ok ["frame"].

(** A master with one registered worker. *)
Definition one_worker_master : MasterImpl :=
  RegisterWorker MasterImpl_new "node:5002".

Definition empty_storage : Storage :=
  mkStorage (mkDatabaseMetadata 0 []) [].

(** Two jobs in a row on one master: a job of 5 rows, the four calls to
    [NextIOItem] that hand out its three items, then a job of 4 rows.  The
    result is the master after the planning of the second job. *)
Definition master_after_two_jobs : result MasterImpl :=
  do r1 <- Master_NewJob 2 1 frame_columns (fun _ => StatusOK)
             one_worker_master empty_storage (single_task_job 5);
  let served := calls 4 (fst (fst r1)) in
  do r2 <- Master_NewJob 2 1 frame_columns (fun _ => StatusOK)
             (fst served) (snd (fst r1)) (single_task_job 4);
  Ok (fst (fst r2)).

(** The load-work entries of a task of 5 rows planned with IO_ITEM_SIZE = 2. *)
Definition five_row_entries : list LoadWorkEntry :=
  match create_io_items 2 (single_task 5) [] [] with
  | Ok r => snd r
  | Err _ => []
  end.

(** *** Closed forms of the planner's output *)

(** The number of items of a task of [n] rows: [n / io_item_size], rounded
    up. *)
Definition items_in_task (io_item_size n : Z) : Z :=
  (n + io_item_size - 1) / io_item_size.

(** The [k]-th item of task [j], of [n] rows. *)
Definition nth_item (io_item_size j n k : Z) : IOItem :=
  mkIOItem j k (k * io_item_size) (Z.min ((k + 1) * io_item_size) n).

Definition task_items (io_item_size j n : Z) : list IOItem :=
  nth_item io_item_size j n <$> seqZ 0 (items_in_task io_item_size n).

Definition all_items (io_item_size : Z) (tasks : list proto.Task)
    : list IOItem :=
  concat (imap (fun j task =>
    task_items io_item_size (Z.of_nat j) (rows_in_task task)) tasks).

(** The entry at position [k], made for the item [it]. *)
Definition entry_of (tasks : list proto.Task) (k : nat) (it : IOItem)
    : LoadWorkEntry :=
  mkLoadWorkEntry (Z.of_nat k)
    match tasks !! Z.to_nat (table_id it) with
    | Some task =>
        windowed 0 (start_row it) (end_row it) <$> proto.samples task
    | None => []
    end.

Definition all_entries (tasks : list proto.Task) (items : list IOItem)
    : list LoadWorkEntry :=
  imap (entry_of tasks) items.

(** An entry with its index moved by [d]. *)
Definition shift_index (d : Z) (e : LoadWorkEntry) : LoadWorkEntry :=
  mkLoadWorkEntry (io_item_index e + d) (samples e).

(** A result of the planner on empty vectors, as it comes out when the
    vectors already hold [io_items] and [load_work_entries]. *)
Definition rebase (io_items : list IOItem)
    (load_work_entries : list LoadWorkEntry)
    (r : result (list IOItem * list LoadWorkEntry))
    : result (list IOItem * list LoadWorkEntry) :=
  match r with
  | Ok out =>
      Ok (io_items ++ fst out,
          load_work_entries ++
          (shift_index (Z.of_nat (length io_items)) <$> snd out))
  | Err f => Err f
  end.

(** The entries made for the items of task [j], in order. *)
Definition entries_of_task (j : Z) (items : list IOItem)
    (entries : list LoadWorkEntry) : list LoadWorkEntry :=
  snd <$> filter (fun p => table_id (fst p) = j) (zip items entries).

(** The rows an entry lists for the [k]-th sample of its task. *)
Definition entry_rows (k : nat) (e : LoadWorkEntry) : list Z :=
  match samples e !! k with
  | Some ls => proto.rows ls
  | None => []
  end.

(** Task sets used in the further results: tasks of 5, 0 and 2 rows, and a
    task whose second sample is one row short. *)
Definition three_tasks : proto.TaskSet :=
  proto.mkTaskSet
    [proto.mkTask [one_sample (seqZ 100 5)];
     proto.mkTask [one_sample []];
     proto.mkTask [one_sample [30; 31]]] [].

Definition short_sample_task : proto.TaskSet :=
  proto.mkTaskSet
    [proto.mkTask [one_sample [10; 11; 12]; one_sample [20; 21]]] [].

Definition two_sample_task : proto.TaskSet :=
  proto.mkTaskSet
    [proto.mkTask [one_sample [10; 11; 12]; one_sample [20; 21; 22]]] [].

(** The requests started and the requests joined, in a log of [NewJob]. *)
Definition is_spawned (a : master_action) : bool :=
  match a with
  | Spawned _ => true
  | _ => false
  end.

Definition is_joined (a : master_action) : bool :=
  match a with
  | Joined _ _ => true
  | _ => false
  end.

(** An input of an evaluator that kernel binding can resolve: its index
    is inside the list of evaluators, and the registry knows the evaluator
    there. *)
Definition resolvable {EvaluatorInfo : Type}
    (get_evaluator_info : string -> result EvaluatorInfo)
    (evaluators : list proto.Evaluator) (input : proto.EvaluatorInput) : Prop :=
  0 <= proto.evaluator_index input /\
  exists input_evaluator,
    evaluators !! Z.to_nat (proto.evaluator_index input) = Some input_evaluator /\
    is_ok (get_evaluator_info (proto.name input_evaluator)) = true.

(** The entries sit at their index. *)
Definition aligned (load_work_entries : list LoadWorkEntry) : Prop :=
  forall k e, load_work_entries !! k = Some e -> io_item_index e = Z.of_nat k.

(** A master whose replies a worker holding [load_work_entries] can look
    up. *)
Definition master_fits (load_work_entries : list LoadWorkEntry)
    (m : MasterImpl) : Prop :=
  0 <= next_io_item_to_allocate_ m /\
  num_io_items_ m <= Z.of_nat (length load_work_entries).

(** Two jobs for kernel binding: one whose first evaluator takes columns of
    itself and of the evaluator after it, one whose first evaluator takes a
    column of an evaluator that is not there. *)
Definition forward_job : proto.JobParameters :=
  proto.mkJobParameters "job"
    (proto.mkTaskSet []
       [proto.mkEvaluator "first" proto.CPU 1 []
          [proto.mkEvaluatorInput 0 ["a"]; proto.mkEvaluatorInput 1 ["b"]];
        proto.mkEvaluator "second" proto.CPU 1 [] []]).

Definition dangling_job : proto.JobParameters :=
  proto.mkJobParameters "job"
    (proto.mkTaskSet []
       [proto.mkEvaluator "first" proto.CPU 1 []
          [proto.mkEvaluatorInput 2 ["a"]];
        proto.mkEvaluator "second" proto.CPU 1 [] []]).

(** The log of a drain in which no join fails. *)
Definition full_drain (LOAD_WORKERS_PER_NODE PUS_PER_NODE
    SAVE_WORKERS_PER_NODE : Z) : list worker_action :=
  replicate (Z.to_nat LOAD_WORKERS_PER_NODE) (Push load_work (-1)) ++
  (Join Load <$> seqZ 0 LOAD_WORKERS_PER_NODE) ++
  replicate (Z.to_nat PUS_PER_NODE) (Push initial_eval_work (-1)) ++
  (Join PreEval <$> seqZ 0 PUS_PER_NODE) ++
  ((fun pu => Push (eval_work pu 1) (-1)) <$> seqZ 0 PUS_PER_NODE) ++
  (Join Eval <$> seqZ 0 PUS_PER_NODE) ++
  ((fun pu => Push (eval_work pu 2) (-1)) <$> seqZ 0 PUS_PER_NODE) ++
  (Join PostEval <$> seqZ 0 PUS_PER_NODE) ++
  replicate (Z.to_nat SAVE_WORKERS_PER_NODE) (Push save_work (-1)) ++
  (Join Save <$> seqZ 0 SAVE_WORKERS_PER_NODE).

(** A piece of the driver that either does all of [full], or stops inside
    it at a join that failed. *)
Definition stops_within (pthread_join : stage -> Z -> Z)
    (full : list worker_action) (d : driver) : Prop :=
  fst d `prefix_of` full /\
  (snd d = false -> fst d = full) /\
  (snd d = true ->
   exists s i, last (fst d) = Some (Join s i) /\ pthread_join s i <> 0).

(** The thread an action creates, and the thread it joins. *)
Definition created (a : worker_action) : option (stage * Z) :=
  match a with
  | Create s i => Some (s, i)
  | _ => None
  end.

Definition joined (a : worker_action) : option (stage * Z) :=
  match a with
  | Join s i => Some (s, i)
  | _ => None
  end.

(** The count bytes of a profiler file, and its records of a component. *)
Definition count_byte (w : profiler_write) : option Z :=
  match w with
  | write_u8 v => Some v
  | _ => None
  end.

Definition is_record_of (component : string) (w : profiler_write) : bool :=
  match w with
  | write_profiler _ c _ _ => bool_decide (c = component)
  | _ => false
  end.

Definition records_of (component : string) (out : list profiler_write)
    : list profiler_write :=
  filter (fun w => is_record_of component w = true) out.

(** The entry at position [k], made for the item [it] with [warmup] rows of
    context, and the entries of a list of items. *)
Definition entry_with_warmup (warmup : Z) (tasks : list proto.Task) (k : nat)
    (it : IOItem) : LoadWorkEntry :=
  mkLoadWorkEntry (Z.of_nat k)
    match tasks !! Z.to_nat (table_id it) with
    | Some task =>
        windowed warmup (start_row it) (end_row it) <$> proto.samples task
    | None => []
    end.

Definition all_entries_with_warmup (warmup : Z) (tasks : list proto.Task)
    (items : list IOItem) : list LoadWorkEntry :=
  imap (entry_with_warmup warmup tasks) items.

(** A job whose second task has no samples. *)
Definition no_samples_job : proto.JobParameters :=
  proto.mkJobParameters "job"
    (proto.mkTaskSet (proto.tasks no_samples_task)
       [proto.mkEvaluator "decode" proto.CPU 1 [] []]).

(** ** Results *)

(** *** The result monad *)

Lemma bind_Ok_inv {A B} (m : result A) (k : A -> result B) (b : B) :
  bind m k = Ok b -> exists a, m = Ok a /\ k a = Ok b.
Proof. destruct m as [a|f]; simpl; [eauto | discriminate]. Qed.

Lemma collect_Ok_inv {A B} (f : A -> result B) (l : list A) (ys : list B) :
  collect f l = Ok ys -> Forall2 (fun x y => f x = Ok y) l ys.
Proof.
  revert ys. induction l as [|x l IH]; simpl; intros ys H.
  - injection H as <-. constructor.
  - apply bind_Ok_inv in H as (y & Hy & H).
    apply bind_Ok_inv in H as (ys' & Hys & H).
    injection H as <-. constructor; auto.
Qed.

Lemma collect_Ok_intro {A B} (f : A -> result B) (l : list A) (ys : list B) :
  Forall2 (fun x y => f x = Ok y) l ys -> collect f l = Ok ys.
Proof.
  induction 1 as [|x y l ys Hxy _ IH]; simpl; [reflexivity|].
  rewrite Hxy. simpl. rewrite IH. reflexivity.
Qed.

Lemma collect_Ok_fmap {A B} (f : A -> result B) (g : A -> B) (l : list A) :
  Forall (fun x => f x = Ok (g x)) l -> collect f l = Ok (g <$> l).
Proof.
  induction 1 as [|x l Hx _ IH]; simpl; [reflexivity|].
  rewrite Hx. simpl. rewrite IH. reflexivity.
Qed.

Lemma collect_length {A B} (f : A -> result B) (l : list A) (ys : list B) :
  collect f l = Ok ys -> length ys = length l.
Proof.
  intros H. apply collect_Ok_inv in H. symmetry.
  eapply Forall2_length, H.
Qed.

Lemma collect_Err_inv {A B} (f : A -> result B) (l : list A) (e : failure) :
  collect f l = Err e -> exists x, x ∈ l /\ f x = Err e.
Proof.
  induction l as [|x l IH]; simpl; [discriminate|].
  destruct (f x) as [y|e'] eqn:Hx; simpl.
  - destruct (collect f l) as [ys|e'']; simpl; [discriminate|].
    intros [= ->]. destruct IH as (x' & Hin & Hx'); [reflexivity|].
    exists x'. split; [apply elem_of_cons; by right | exact Hx'].
  - intros [= ->]. exists x. split; [apply elem_of_cons; by left | exact Hx].
Qed.

(** *** Reading the rows of a sample *)

Lemma sample_row_Ok sample s r :
  sample_row sample s = Ok r <->
  0 <= s /\ proto.rows sample !! Z.to_nat s = Some r.
Proof.
  unfold sample_row. destruct (Z.ltb_spec s 0).
  - split; [discriminate | lia].
  - destruct (proto.rows sample !! Z.to_nat s) as [r'|].
    + split; [intros [= ->]; auto | intros [_ [= ->]]; reflexivity].
    + split; [discriminate | intros [_ [=]]].
Qed.

(** A run of the inner [for] loop that ends has read the rows at positions
    [s], ..., [e - 1], all of them inside the sample. *)
Lemma add_rows_Ok_inv sample s e rs :
  0 <= s ->
  add_rows sample s e = Ok rs ->
  rs = window s e sample /\
  Z.of_nat (length rs) = Z.max (e - s) 0 /\
  (s < e -> e <= Z.of_nat (length (proto.rows sample))).
Proof.
  unfold add_rows, window. intros Hs H.
  remember (Z.to_nat (e - s)) as n eqn:Hn.
  revert s e rs Hs Hn H. induction n as [|n IH]; intros s e rs Hs Hn H.
  - rewrite seqZ_nil in H by lia. injection H as <-.
    simpl. repeat split; lia.
  - rewrite seqZ_cons in H by lia. simpl in H.
    apply bind_Ok_inv in H as (r & Hr & H).
    apply bind_Ok_inv in H as (rs' & Hrs & H). injection H as <-.
    apply sample_row_Ok in Hr as [_ Hr].
    replace (Z.pred (e - s)) with (e - Z.succ s) in Hrs by lia.
    destruct (IH (Z.succ s) e rs') as (-> & Hlen & Hin); [lia | lia | exact Hrs |].
    split; [|split].
    + rewrite (drop_S _ r (Z.to_nat s)) by exact Hr.
      replace (Z.to_nat (e - s)) with (S (Z.to_nat (e - Z.succ s))) by lia.
      replace (Z.to_nat (Z.succ s)) with (S (Z.to_nat s)) by lia.
      reflexivity.
    + simpl length. rewrite Nat2Z.inj_succ, Hlen. lia.
    + intros _. destruct (Z.eq_dec (Z.succ s) e) as [<-|Hne].
      * apply lookup_lt_Some in Hr. lia.
      * apply Hin. lia.
Qed.

(** It ends when the positions are inside the sample. *)
Lemma add_rows_Ok_intro sample s e :
  0 <= s ->
  e <= Z.of_nat (length (proto.rows sample)) ->
  add_rows sample s e = Ok (window s e sample).
Proof.
  unfold add_rows, window. intros Hs He.
  remember (Z.to_nat (e - s)) as n eqn:Hn.
  revert s Hs Hn. induction n as [|n IH]; intros s Hs Hn.
  - rewrite seqZ_nil by lia. reflexivity.
  - rewrite seqZ_cons by lia. simpl.
    destruct (lookup_lt_is_Some_2 (proto.rows sample) (Z.to_nat s)) as [r Hr];
      [lia|].
    assert (Hrow : sample_row sample s = Ok r) by (apply sample_row_Ok; auto).
    rewrite Hrow. simpl.
    replace (Z.pred (e - s)) with (e - Z.succ s) by lia.
    rewrite (IH (Z.succ s)) by lia. simpl.
    rewrite (drop_S _ r (Z.to_nat s)) by exact Hr.
    replace (Z.to_nat (Z.succ s)) with (S (Z.to_nat s)) by lia.
    reflexivity.
Qed.

(** The only failure of the loop is a read outside the sample. *)
Lemma add_rows_Err_inv sample s e f :
  add_rows sample s e = Err f -> f = OutOfBounds.
Proof.
  unfold add_rows. intros H.
  apply collect_Err_inv in H as (x & _ & H). unfold sample_row in H.
  destruct (x <? 0); [congruence|].
  destruct (proto.rows sample !! Z.to_nat x); congruence.
Qed.

(** *** The while loop of a task *)

Section PlannerFacts.

Variable io_item_size : Z.
Variable warmup_size : Z.

#[local] Abbreviation slices := (slices io_item_size warmup_size).
#[local] Abbreviation planned := (planned io_item_size warmup_size).
#[local] Abbreviation allocate := (allocate io_item_size warmup_size).
#[local] Abbreviation plan_tasks := (plan_tasks io_item_size warmup_size).

(** A run of the loop that ends has followed the graph. *)
Lemma allocate_graph fuel i task n id a io_items load_work_entries out :
  allocate fuel i task n id a io_items load_work_entries = Ok out ->
  exists items entries,
    out = (io_items ++ items, load_work_entries ++ entries) /\
    slices i task n id a (Z.of_nat (length io_items)) items entries.
Proof.
  revert id a io_items load_work_entries.
  induction fuel as [|fuel IH]; intros id a ios lws H; simpl in H;
    destruct (Z.ltb_spec a n) as [Han|Han]; try discriminate.
  - injection H as <-. exists [], []. rewrite !app_nil_r.
    split; [reflexivity | by constructor].
  - apply bind_Ok_inv in H as (ls & Hls & H).
    apply IH in H as (items & entries & -> & Hsl).
    rewrite length_app, Nat2Z.inj_add in Hsl. simpl in Hsl.
    eexists (_ :: items), (_ :: entries). split.
    + rewrite <- !app_assoc. simpl. reflexivity.
    + rewrite length_app. simpl length.
      replace (Z.of_nat (length ios + 1) - 1) with (Z.of_nat (length ios))
        by lia.
      econstructor; eauto.
  - injection H as <-. exists [], []. rewrite !app_nil_r.
    split; [reflexivity | by constructor].
Qed.

(** The graph is only followed when the loop makes progress. *)
Lemma slices_progress i task n id a base items entries :
  slices i task n id a base items entries -> a < n -> 0 < io_item_size.
Proof.
  induction 1 as [id a base Hdone | id a base r ls items entries Han Hr Hls _ IH];
    intros Hlt; [lia|].
  destruct (Z.ltb_spec 0 io_item_size) as [|Hio]; [assumption|].
  apply IH. lia.
Qed.

(** With a stride that is not positive the loop never ends: whatever the
    fuel, the model does not return. *)
Lemma allocate_stuck fuel i task n id a io_items load_work_entries :
  io_item_size <= 0 -> a < n ->
  is_ok (allocate fuel i task n id a io_items load_work_entries) = false.
Proof.
  intros Hio Han.
  destruct (allocate fuel i task n id a io_items load_work_entries)
    as [out|f] eqn:H; [|reflexivity].
  apply allocate_graph in H as (items & entries & _ & Hsl).
  apply slices_progress in Hsl; lia.
Qed.

(** The body of the loop over samples succeeds on a sample that has the
    rows. *)
Lemma load_sample_Ok_intro a r sample :
  0 <= a -> a + r <= Z.of_nat (length (proto.rows sample)) ->
  load_sample warmup_size a r sample
  = Ok (windowed warmup_size a (a + r) sample).
Proof.
  intros Ha Hr. unfold load_sample, windowed.
  rewrite add_rows_Ok_intro by lia. reflexivity.
Qed.

Lemma load_sample_Ok_inv a r sample ls :
  load_sample warmup_size a r sample = Ok ls ->
  ls = windowed warmup_size a (a + r) sample /\
  Z.of_nat (length (proto.rows ls))
  = Z.max (a + r - Z.max (a - warmup_size) 0) 0.
Proof.
  unfold load_sample, windowed. intros H.
  apply bind_Ok_inv in H as (rs & Hrs & H). injection H as <-.
  apply add_rows_Ok_inv in Hrs as (-> & Hlen & _); [|lia].
  split; [reflexivity | exact Hlen].
Qed.

(** With a positive stride, samples that have the rows and enough fuel,
    the loop ends. *)
Lemma allocate_total fuel i task n id a io_items load_work_entries :
  0 < io_item_size -> 0 <= a ->
  Forall (fun s => n <= Z.of_nat (length (proto.rows s))) (proto.samples task) ->
  (Z.to_nat (n - a) <= fuel)%nat ->
  is_ok (allocate fuel i task n id a io_items load_work_entries) = true.
Proof.
  intros Hio Ha Hcov. revert id a io_items load_work_entries Ha.
  induction fuel as [|fuel IH]; intros id a ios lws Ha Hfuel; simpl;
    destruct (Z.ltb_spec a n) as [Han|Han]; try reflexivity; [lia|].
  rewrite (collect_Ok_fmap _
    (windowed warmup_size a (a + Z.min io_item_size (n - a)))).
  - simpl. apply IH; lia.
  - eapply Forall_impl; [exact Hcov|]. intros s Hs. simpl in Hs.
    apply load_sample_Ok_intro; lia.
Qed.

(** More fuel does not change the result of a run that ended. *)
Lemma allocate_fuel fuel fuel' i task n id a io_items load_work_entries out :
  (fuel <= fuel')%nat ->
  allocate fuel i task n id a io_items load_work_entries = Ok out ->
  allocate fuel' i task n id a io_items load_work_entries = Ok out.
Proof.
  revert fuel' id a io_items load_work_entries.
  induction fuel as [|fuel IH]; intros fuel' id a ios lws Hle H.
  - simpl in H. destruct fuel'; simpl;
      destruct (a <? n); congruence.
  - destruct fuel' as [|fuel']; [lia|]. simpl in *.
    destruct (a <? n); [|exact H].
    apply bind_Ok_inv in H as (ls & Hls & H). rewrite Hls. simpl.
    apply IH; [lia | exact H].
Qed.

(** With a positive stride the fuel is never what stops the loop: the only
    failure is a read outside a sample. *)
Lemma allocate_Err_inv fuel i task n id a io_items load_work_entries f :
  0 < io_item_size ->
  (Z.to_nat (n - a) <= fuel)%nat ->
  allocate fuel i task n id a io_items load_work_entries = Err f ->
  f = OutOfBounds.
Proof.
  intros Hio. revert id a io_items load_work_entries.
  induction fuel as [|fuel IH]; intros id a ios lws Hfuel; simpl;
    destruct (Z.ltb_spec a n) as [Han|Han]; try discriminate; [lia|].
  destruct (collect _ (proto.samples task)) as [ls|f'] eqn:Hls; simpl.
  - apply IH. lia.
  - intros [= ->]. apply collect_Err_inv in Hls as (sample & _ & Hls).
    unfold load_sample in Hls.
    destruct (add_rows _ _ _) as [rs|f''] eqn:Hrs; [discriminate|].
    simpl in Hls. injection Hls as ->. eapply add_rows_Err_inv, Hrs.
Qed.

(** **** What the graph says about the items *)

Lemma slices_table_id i task n id a base items entries :
  slices i task n id a base items entries ->
  Forall (fun it => table_id it = i) items.
Proof. induction 1; constructor; auto. Qed.

Lemma slices_item_id i task n id a base items entries :
  slices i task n id a base items entries ->
  item_id <$> items = seqZ id (Z.of_nat (length items)).
Proof.
  induction 1 as [|id a base r ls items entries _ _ _ _ IH]; [reflexivity|].
  rewrite fmap_cons, IH. simpl length.
  rewrite Nat2Z.inj_succ, (seqZ_cons id) by lia.
  rewrite Z.pred_succ. reflexivity.
Qed.

Lemma slices_size i task n id a base items entries :
  slices i task n id a base items entries ->
  Forall (fun it => end_row it - start_row it <= io_item_size) items.
Proof.
  induction 1 as [|id a base r ls items entries _ Hr _ _ IH];
    constructor; [simpl; lia | exact IH].
Qed.

Lemma slices_chained i task n id a base items entries :
  slices i task n id a base items entries ->
  a <= n -> chained a items n.
Proof.
  intros H. pose proof (slices_progress _ _ _ _ _ _ _ _ H) as Hio.
  induction H as [id a base Hdone | id a base r ls items entries Han Hr _ _ IH];
    intros Hle; simpl; [lia|].
  specialize (Hio Han). repeat split; [lia|]. apply IH; [auto | lia].
Qed.

Lemma slices_nonempty i task n id a base items entries :
  slices i task n id a base items entries -> a < n -> items <> [].
Proof. destruct 1; [lia | discriminate]. Qed.

(** **** What it says about the entries *)

Lemma slices_length i task n id a base items entries :
  slices i task n id a base items entries ->
  length entries = length items.
Proof. induction 1; simpl; congruence. Qed.

Lemma slices_index i task n id a base items entries :
  slices i task n id a base items entries ->
  forall k e, entries !! k = Some e -> io_item_index e = base + Z.of_nat k.
Proof.
  induction 1 as [|id a base r ls items entries _ _ _ _ IH]; intros k e Hk.
  - discriminate.
  - destruct k as [|k]; simpl in Hk.
    + injection Hk as <-. simpl. lia.
    + rewrite (IH _ _ Hk). lia.
Qed.

Lemma slices_windows i task n id a base items entries :
  slices i task n id a base items entries ->
  0 <= warmup_size -> 0 <= a ->
  Forall2 (entry_matches warmup_size task) items entries.
Proof.
  intros H. pose proof (slices_progress _ _ _ _ _ _ _ _ H) as Hio.
  induction H as [|id a base r ls items entries Han Hr Hls _ IH];
    intros Hw Ha; constructor.
  - specialize (Hio Han). apply collect_Ok_inv in Hls.
    unfold entry_matches. simpl. split.
    + clear -Hls. induction Hls as [|s l ss ls' Hsl _ IHl]; [reflexivity|].
      apply load_sample_Ok_inv in Hsl as [-> _]. simpl. by rewrite IHl.
    + apply Forall_forall. intros l Hl.
      apply list_elem_of_lookup in Hl as [k Hk].
      destruct (Forall2_lookup_r _ _ _ _ _ Hls Hk) as (s & _ & Hsl).
      apply load_sample_Ok_inv in Hsl as [_ Hlen]. lia.
  - apply IH; [|assumption|lia]. intros _. destruct (Z.ltb_spec 0 io_item_size);
      [assumption|]. apply Hio. exact Han.
Qed.

End PlannerFacts.

(** *** The loop over the tasks *)

Lemma filter_all {A} (P : A -> Prop) `{forall x, Decision (P x)} (l : list A) :
  Forall P l -> filter P l = l.
Proof.
  induction 1 as [|x l Hx _ IH]; [reflexivity|].
  rewrite filter_cons_True by assumption. by rewrite IH.
Qed.

Lemma filter_none {A} (P : A -> Prop) `{forall x, Decision (P x)} (l : list A) :
  Forall (fun x => ~ P x) l -> filter P l = [].
Proof.
  induction 1 as [|x l Hx _ IH]; [reflexivity|].
  by rewrite filter_cons_False.
Qed.

Lemma chained_le a its n : chained a its n -> a <= n.
Proof.
  revert a. induction its as [|it its IH]; simpl; intros a H; [lia|].
  destruct H as (_ & Hlt & H). apply IH in H. lia.
Qed.

(** Chained items, put end to end, are the rows from the first start to the
    last end, each once. *)
Lemma chained_concat a its n :
  chained a its n -> concat (item_rows <$> its) = seqZ a (n - a).
Proof.
  revert a. induction its as [|it its IH]; intros a H; simpl in H.
  - subst. by rewrite seqZ_nil by lia.
  - destruct H as (Hs & Hlt & H). pose proof (chained_le _ _ _ H) as Hle.
    rewrite fmap_cons. cbn [concat].
    rewrite (IH _ H). unfold item_rows. rewrite Hs.
    replace (n - a) with ((end_row it - a) + (n - end_row it)) by lia.
    rewrite seqZ_app by lia. do 2 f_equal. lia.
Qed.

Section PlanFacts.

Variable io_item_size : Z.
Variable warmup_size : Z.

#[local] Abbreviation slices := (slices io_item_size warmup_size).
#[local] Abbreviation planned := (planned io_item_size warmup_size).
#[local] Abbreviation plan_tasks := (plan_tasks io_item_size warmup_size).

Lemma plan_tasks_graph i tasks io_items load_work_entries out :
  plan_tasks i tasks io_items load_work_entries = Ok out ->
  exists items entries,
    out = (io_items ++ items, load_work_entries ++ entries) /\
    planned i tasks (Z.of_nat (length io_items)) items entries.
Proof.
  revert i io_items load_work_entries.
  induction tasks as [|task tasks IH]; intros i ios lws H; simpl in H.
  - injection H as <-. exists [], []. rewrite !app_nil_r.
    split; [reflexivity | constructor].
  - destruct (proto.samples task) as [|sample0 rest] eqn:Hs; [discriminate|].
    apply bind_Ok_inv in H as (r & Hr & H).
    apply allocate_graph in Hr as (items & entries & -> & Hsl).
    apply IH in H as (items' & entries' & -> & Hpl). simpl in Hpl.
    exists (items ++ items'), (entries ++ entries'). split.
    + simpl. by rewrite !app_assoc.
    + rewrite length_app, Nat2Z.inj_add in Hpl.
      econstructor; [congruence | | exact Hpl].
      unfold rows_in_task. rewrite Hs. exact Hsl.
Qed.

Lemma plan_tasks_total i tasks io_items load_work_entries :
  0 < io_item_size -> Forall covered tasks ->
  is_ok (plan_tasks i tasks io_items load_work_entries) = true.
Proof.
  intros Hio Hcov. revert i io_items load_work_entries.
  induction Hcov as [|task tasks [Hne Hlen] _ IH]; intros i ios lws;
    [reflexivity|].
  simpl. unfold rows_in_task in Hlen.
  destruct (proto.samples task) as [|sample0 rest] eqn:Hs; [done|].
  pose proof (allocate_total io_item_size warmup_size
    (Z.to_nat (Z.of_nat (length (proto.rows sample0)))) i task
    (Z.of_nat (length (proto.rows sample0))) 0 0 ios lws Hio) as Htot.
  destruct (allocate _ _ _ _ _ _ _ _ _ _) as [r|f]; simpl.
  - apply IH.
  - rewrite Hs in Htot. apply Htot; [lia | exact Hlen | lia].
Qed.

(** With a positive stride the planner fails on a task without samples or
    on a read outside a sample, and in no other way. *)
Lemma plan_tasks_Err_inv i tasks io_items load_work_entries f :
  0 < io_item_size ->
  plan_tasks i tasks io_items load_work_entries = Err f ->
  f = AssertFailed \/ f = OutOfBounds.
Proof.
  intros Hio. revert i io_items load_work_entries.
  induction tasks as [|task tasks IH]; intros i ios lws; simpl;
    [discriminate|].
  destruct (proto.samples task) as [|sample0 rest]; [intros [= <-]; auto|].
  destruct (allocate _ _ _ _ _ _ _ _ _ _) as [r|f'] eqn:Hr; simpl.
  - apply IH.
  - intros [= ->]. right. eapply allocate_Err_inv in Hr; [exact Hr | exact Hio | lia].
Qed.

(** The loop stops at the first task without samples. *)
Lemma plan_tasks_assert i pre task post io_items load_work_entries :
  0 < io_item_size -> Forall covered pre -> proto.samples task = [] ->
  plan_tasks i (pre ++ task :: post) io_items load_work_entries
  = Err AssertFailed.
Proof.
  intros Hio Hcov Hs. revert i io_items load_work_entries.
  induction Hcov as [|t pre Ht Hpre IH]; intros i ios lws; simpl.
  - by rewrite Hs.
  - pose proof (plan_tasks_total i [t] ios lws Hio) as Htot.
    simpl in Htot. destruct (proto.samples t) as [|sample0 rest];
      [destruct Ht as [Hne _]; done|].
    destruct (allocate _ _ _ _ _ _ _ _ _ _) as [r|f]; simpl.
    + apply IH.
    + simpl in Htot. discriminate Htot. constructor; [exact Ht | constructor].
Qed.

(** A task without samples anywhere in the task set makes the planner
    fail. *)
Lemma plan_tasks_empty_samples i tasks task io_items load_work_entries :
  task ∈ tasks -> proto.samples task = [] ->
  is_ok (plan_tasks i tasks io_items load_work_entries) = false.
Proof.
  intros Hin Hs.
  destruct (plan_tasks i tasks io_items load_work_entries) as [out|f] eqn:H;
    [|reflexivity].
  apply plan_tasks_graph in H as (items & entries & _ & Hpl).
  exfalso. induction Hpl as [|i t tasks base its es its' es' Hne _ _ IH].
  - by apply elem_of_nil in Hin.
  - apply elem_of_cons in Hin as [->|Hin]; [congruence | auto].
Qed.

Lemma planned_table_id i tasks base items entries :
  planned i tasks base items entries ->
  Forall (fun it => i <= table_id it < i + Z.of_nat (length tasks)) items.
Proof.
  induction 1 as [|i task tasks base its es its' es' _ Hsl _ IH];
    [constructor|].
  apply Forall_app. split.
  - eapply Forall_impl; [exact (slices_table_id _ _ _ _ _ _ _ _ _ _ Hsl)|].
    simpl. intros it ->. simpl length. lia.
  - eapply Forall_impl; [exact IH|]. simpl. intros it Hit.
    simpl length. lia.
Qed.

(** The items of a task are those its while loop appended. *)
Lemma planned_items_of_task i tasks base items entries j task :
  planned i tasks base items entries ->
  tasks !! j = Some task ->
  exists b es,
    slices (i + Z.of_nat j) task (rows_in_task task) 0 0 b
           (items_of_task (i + Z.of_nat j) items) es.
Proof.
  intros Hpl. revert j.
  induction Hpl as [|i t tasks base its es its' es' _ Hsl Hpl IH];
    intros j Hj; [discriminate|].
  unfold items_of_task. rewrite filter_app.
  destruct j as [|j]; simpl in Hj.
  - injection Hj as ->. replace (i + Z.of_nat 0) with i by lia.
    rewrite filter_all by exact (slices_table_id _ _ _ _ _ _ _ _ _ _ Hsl).
    rewrite filter_none, app_nil_r; [eauto|].
    eapply Forall_impl; [exact (planned_table_id _ _ _ _ _ Hpl)|].
    simpl. lia.
  - destruct (IH _ Hj) as (b & es0 & Hsl0).
    replace (i + Z.of_nat (S j)) with (i + 1 + Z.of_nat j) by lia.
    rewrite filter_none; [simpl; eauto|].
    eapply Forall_impl; [exact (slices_table_id _ _ _ _ _ _ _ _ _ _ Hsl)|].
    simpl. lia.
Qed.

Lemma planned_length i tasks base items entries :
  planned i tasks base items entries -> length entries = length items.
Proof.
  induction 1 as [|i t tasks base its es its' es' _ Hsl _ IH];
    [reflexivity|].
  rewrite !length_app, IH. f_equal. eapply slices_length, Hsl.
Qed.

Lemma planned_index i tasks base items entries :
  planned i tasks base items entries ->
  forall k e, entries !! k = Some e -> io_item_index e = base + Z.of_nat k.
Proof.
  induction 1 as [|i t tasks base its es its' es' _ Hsl _ IH]; intros k e Hk;
    [discriminate|].
  apply lookup_app_Some in Hk as [Hk|[Hge Hk]].
  - eapply slices_index; eauto.
  - rewrite (IH _ _ Hk). rewrite <- (slices_length _ _ _ _ _ _ _ _ _ _ Hsl).
    lia.
Qed.

(** Every item comes with the entry made for it from the samples of its
    task. *)
Lemma planned_windows i tasks base items entries :
  planned i tasks base items entries -> 0 <= warmup_size ->
  Forall2 (fun it e =>
    exists task,
      i <= table_id it /\
      tasks !! Z.to_nat (table_id it - i) = Some task /\
      entry_matches warmup_size task it e) items entries.
Proof.
  induction 1 as [|i t tasks base its es its' es' _ Hsl _ IH]; intros Hw;
    [constructor|].
  apply Forall2_app.
  - pose proof (slices_table_id _ _ _ _ _ _ _ _ _ _ Hsl) as Hid.
    pose proof (slices_windows _ _ _ _ _ _ _ _ _ _ Hsl Hw (Z.le_refl 0)) as Hwin.
    clear -Hid Hwin. induction Hwin as [|it e its es Hm _ IHw]; constructor.
    + apply Forall_cons in Hid as [-> _]. exists t.
      rewrite Z.sub_diag. simpl. repeat split; [lia | apply Hm..].
    + apply IHw. by apply Forall_cons in Hid as [_ ?].
  - eapply Forall2_impl; [exact (IH Hw)|]. simpl.
    intros it e (task & Hle & Hlook & Hm). exists task.
    repeat split; [lia | | apply Hm..].
    replace (Z.to_nat (table_id it - i))
      with (S (Z.to_nat (table_id it - (i + 1)))) by lia.
    exact Hlook.
Qed.

End PlanFacts.

(** *** The planner *)

(** C1. When IO_ITEM_SIZE is positive and every task has a first sample of
    N > 0 rows (no other sample being shorter), the planner returns, every
    item it returns belongs to a task, and the items of the task at index
    [j] (those with [table_id = j], in output order) are not empty, carry the
    item ids 0, 1, 2, ..., span at most IO_ITEM_SIZE rows each, follow one
    another from row 0 to row N without gap or overlap, and put end to end
    give the rows 0, ..., N - 1 once each. *)
Theorem create_io_items_covers_rows io_item_size task_set :
  0 < io_item_size ->
  Forall (fun task => covered task /\ 0 < rows_in_task task)
         (proto.tasks task_set) ->
  exists items entries,
    create_io_items io_item_size task_set [] [] = Ok (items, entries) /\
    Forall (fun it =>
      0 <= table_id it < Z.of_nat (length (proto.tasks task_set))) items /\
    forall j task, proto.tasks task_set !! j = Some task ->
      let its := items_of_task (Z.of_nat j) items in
      its <> [] /\
      item_id <$> its = seqZ 0 (Z.of_nat (length its)) /\
      Forall (fun it => end_row it - start_row it <= io_item_size) its /\
      chained 0 its (rows_in_task task) /\
      concat (item_rows <$> its) = seqZ 0 (rows_in_task task).
Proof.
  intros Hio Hwf. unfold create_io_items, create_io_items_with_warmup.
  pose proof (plan_tasks_total io_item_size 0 0 (proto.tasks task_set) [] [] Hio)
    as Htot.
  destruct (plan_tasks io_item_size 0 0 (proto.tasks task_set) [] [])
    as [[items entries]|f] eqn:Hplan.
  - exists items, entries. split; [reflexivity|].
    apply plan_tasks_graph in Hplan as (items0 & entries0 & [= -> ->] & Hpl).
    simpl. split.
    + exact (planned_table_id _ _ _ _ _ _ _ Hpl).
    + intros j task Hj.
      destruct (planned_items_of_task _ _ _ _ _ _ _ j task Hpl Hj)
        as (b & es & Hsl).
      simpl in Hsl.
      assert (Hn : 0 < rows_in_task task).
      { eapply Forall_lookup_1 in Hwf; [|exact Hj]. apply Hwf. }
      pose proof (slices_chained _ _ _ _ _ _ _ _ _ _ Hsl) as Hch.
      repeat split.
      * eapply slices_nonempty; [exact Hsl | exact Hn].
      * exact (slices_item_id _ _ _ _ _ _ _ _ _ _ Hsl).
      * exact (slices_size _ _ _ _ _ _ _ _ _ _ Hsl).
      * apply Hch. lia.
      * rewrite (chained_concat 0 _ (rows_in_task task)) by (apply Hch; lia).
        f_equal. lia.
  - exfalso. simpl in Htot. discriminate Htot.
    eapply Forall_impl; [exact Hwf|]. simpl. tauto.
Qed.

(** Five rows with IO_ITEM_SIZE = 2: three items, of 2, 2 and 1 rows. *)
Lemma create_io_items_covers_rows_witness :
  exists items entries,
    create_io_items 2 (single_task 5) [] [] = Ok (items, entries) /\
    (fun it => end_row it - start_row it) <$> items = [2; 2; 1].
Proof.
  destruct (create_io_items_covers_rows 2 (single_task 5))
    as (items & entries & Hok & _).
  - lia.
  - repeat constructor; vm_compute; congruence.
  - exists items, entries. split; [exact Hok|].
    vm_compute in Hok. injection Hok as <- <-. reflexivity.
Defined.

(** C3. For every warmup that is not negative: the [k]-th entry the planner
    returns is the one made for the [k]-th item.  Its samples are those of
    the item's task, in order, each with the same job id, table id and
    column ids and, as rows, the rows of the original sample at positions
    [max (start_row - warmup) 0] up to [end_row]: exactly
    [end_row - max (start_row - warmup) 0] of them.  The lower position is
    never negative. *)
Theorem load_work_entry_rows io_item_size warmup_size task_set items entries :
  0 <= warmup_size ->
  create_io_items_with_warmup io_item_size warmup_size task_set [] []
  = Ok (items, entries) ->
  Forall2 (fun it e =>
    exists task,
      0 <= table_id it /\
      proto.tasks task_set !! Z.to_nat (table_id it) = Some task /\
      samples e
      = (fun sample =>
           proto.mkTableSample
             (proto.job_id sample) (proto.table_id sample)
             (proto.column_ids sample)
             (window (Z.max (start_row it - warmup_size) 0) (end_row it) sample))
        <$> proto.samples task /\
      Forall (fun ls =>
        Z.of_nat (length (proto.rows ls))
        = end_row it - Z.max (start_row it - warmup_size) 0) (samples e) /\
      0 <= Z.max (start_row it - warmup_size) 0)
    items entries.
Proof.
  intros Hw H. unfold create_io_items_with_warmup in H.
  apply plan_tasks_graph in H as (items0 & entries0 & [= -> ->] & Hpl).
  simpl. eapply Forall2_impl; [exact (planned_windows _ _ _ _ _ _ _ Hpl Hw)|].
  simpl. intros it e (task & Hle & Hlook & Hsam & Hlen). exists task.
  rewrite Z.sub_0_r in Hlook. repeat split; try assumption; lia.
Qed.

(** Four rows, IO_ITEM_SIZE = 2, one row of warmup: the first entry has no
    row before row 0 to take, the second starts one row early. *)
Lemma load_work_entry_rows_witness :
  exists items entries,
    create_io_items_with_warmup 2 1 (single_task 4) [] [] = Ok (items, entries) /\
    (fun e => proto.rows <$> samples e) <$> entries
    = [[[100; 101]]; [[101; 102; 103]]].
Proof.
  pose proof (load_work_entry_rows 2 1 (single_task 4)) as H.
  destruct (create_io_items_with_warmup 2 1 (single_task 4) [] [])
    as [[items entries]|f] eqn:Hok; [|vm_compute in Hok; discriminate].
  specialize (H items entries ltac:(lia) eq_refl).
  exists items, entries. split; [reflexivity|].
  vm_compute in Hok. injection Hok as <- <-. reflexivity.
Defined.

(** The step-by-step body and [Master_NewJob] agree: a call that goes
    through ends in the same master and store with the same actions added
    to the log, and a call that fails stops in the state it was started
    in. *)
Lemma Master_NewJob_steps_Ok io_item_size work_item_size output_columns
    worker_reply m st job_params m' st' log log0 :
  Master_NewJob io_item_size work_item_size output_columns worker_reply
    m st job_params = Ok (m', st', log) ->
  Master_NewJob_steps io_item_size work_item_size output_columns worker_reply
    job_params (mkMasterRun m st log0)
  = (mkMasterRun m' st' (log0 ++ log), Ok tt).
Proof.
  unfold Master_NewJob, Master_NewJob_steps, then_, compute, inspect.
  cbn [run_master run_storage run_log].
  destruct (last (proto.evaluators (proto.task_set job_params))) as [ev|];
    [|discriminate]. cbn [bind].
  destruct (output_columns (proto.name ev)) as [cs|f]; [|discriminate].
  cbn [bind].
  destruct (Master_plan io_item_size job_params) as [planned|f];
    [|discriminate].
  cbn [bind]. intros [= <- <- <-].
  unfold set_num_io_items_, act, on_storage.
  cbn [run_master run_storage run_log].
  by rewrite <- !app_assoc.
Qed.

Lemma Master_NewJob_steps_Err io_item_size work_item_size output_columns
    worker_reply job_params r f :
  Master_NewJob io_item_size work_item_size output_columns worker_reply
    (run_master r) (run_storage r) job_params = Err f ->
  Master_NewJob_steps io_item_size work_item_size output_columns worker_reply
    job_params r
  = (r, Err f).
Proof.
  unfold Master_NewJob, Master_NewJob_steps, then_, compute, inspect.
  destruct (last (proto.evaluators (proto.task_set job_params))) as [ev|];
    [|by intros [= <-]]. cbn [bind].
  destruct (output_columns (proto.name ev)) as [cs|f']; [|by intros [= <-]].
  cbn [bind].
  destruct (Master_plan io_item_size job_params) as [planned|f'];
    [discriminate | by intros [= <-]].
Qed.

(** C5, as the text has it, fails: a task whose first sample has no rows is
    planned without any failure (it gets no item), and so is a task whose
    samples have 1 and 2 rows. *)
Lemma planner_accepts_rowless_and_uneven_tasks :
  rows_in_task (proto.mkTask [one_sample []]) = 0 /\
  create_io_items 2 (single_task 0) [] [] = Ok ([], []) /\
  create_io_items 2 uneven_task [] []
  = Ok ([mkIOItem 0 0 0 1], [mkLoadWorkEntry 0 [one_sample [10]; one_sample [20]]]).
Proof. repeat split. Qed.

(** C5, amended.  The one input the planner rejects is a task without
    samples: the assertion fails, and nothing is returned.  With a positive
    IO_ITEM_SIZE and tasks before it that can be planned, the failure is the
    assertion's.  The row counts are not checked: when every task has a
    sample and no sample is shorter than the first, the planner returns,
    and a task whose first sample has no rows gets no item.  In
    [MasterImpl::NewJob] a failure of the planner ends the call where it
    stands: the master and the store are as they were and the call has done
    nothing, so no worker is called and nothing is written. *)
Theorem planner_rejects_only_missing_samples io_item_size task_set :
  (forall task io_items load_work_entries,
     task ∈ proto.tasks task_set -> proto.samples task = [] ->
     is_ok (create_io_items io_item_size task_set io_items load_work_entries)
     = false) /\
  (forall pre task post io_items load_work_entries,
     0 < io_item_size ->
     proto.tasks task_set = pre ++ task :: post ->
     Forall covered pre -> proto.samples task = [] ->
     create_io_items io_item_size task_set io_items load_work_entries
     = Err AssertFailed) /\
  (0 < io_item_size -> Forall covered (proto.tasks task_set) ->
   exists items entries,
     create_io_items io_item_size task_set [] [] = Ok (items, entries) /\
     forall j task, proto.tasks task_set !! j = Some task ->
       rows_in_task task = 0 -> items_of_task (Z.of_nat j) items = []) /\
  (forall work_item_size output_columns worker_reply m st job_params log,
     proto.task_set job_params = task_set ->
     is_ok (create_io_items io_item_size task_set [] []) = false ->
     is_ok (Master_NewJob io_item_size work_item_size output_columns
              worker_reply m st job_params) = false /\
     exists f,
       Master_NewJob_steps io_item_size work_item_size output_columns
         worker_reply job_params (mkMasterRun m st log)
       = (mkMasterRun m st log, Err f)).
Proof.
  unfold create_io_items, create_io_items_with_warmup.
  split; [|split; [|split]].
  - intros task ios lws Hin Hs. eapply plan_tasks_empty_samples; eauto.
  - intros pre task post ios lws Hio -> Hcov Hs.
    by apply plan_tasks_assert.
  - intros Hio Hcov.
    pose proof (plan_tasks_total io_item_size 0 0 (proto.tasks task_set) [] []
                  Hio Hcov) as Htot.
    destruct (plan_tasks io_item_size 0 0 (proto.tasks task_set) [] [])
      as [[items entries]|f] eqn:Hplan; [|discriminate].
    exists items, entries. split; [reflexivity|].
    apply plan_tasks_graph in Hplan as (items0 & entries0 & [= -> ->] & Hpl).
    intros j task Hj Hn.
    destruct (planned_items_of_task _ _ _ _ _ _ _ j task Hpl Hj)
      as (b & es & Hsl).
    rewrite Z.add_0_l, Hn in Hsl. inversion Hsl; [reflexivity | lia].
  - intros wis cols reply m st jp log <- Hfail.
    destruct (Master_NewJob io_item_size wis cols reply m st jp)
      as [out|f] eqn:Hjob.
    + exfalso. unfold Master_NewJob in Hjob.
      apply bind_Ok_inv in Hjob as (ev & _ & Hjob).
      apply bind_Ok_inv in Hjob as (cs & _ & Hjob).
      apply bind_Ok_inv in Hjob as (planned & Hp & _).
      unfold Master_plan, create_io_items, create_io_items_with_warmup in Hp.
      rewrite Hp in Hfail. discriminate.
    + split; [reflexivity|]. exists f.
      by apply (Master_NewJob_steps_Err _ _ _ _ _ (mkMasterRun m st log)).
Qed.

(** A task without samples after a task of three rows, a task of no rows,
    and [NewJob] on the former for a master with one worker. *)
Lemma planner_rejects_only_missing_samples_witness :
  create_io_items 2 no_samples_task [] [] = Err AssertFailed /\
  (exists items entries,
     create_io_items 2 (single_task 0) [] [] = Ok (items, entries) /\
     items_of_task 0 items = []) /\
  exists f,
    Master_NewJob_steps 2 1 frame_columns (fun _ => StatusOK)
      no_samples_job (mkMasterRun one_worker_master empty_storage [])
    = (mkMasterRun one_worker_master empty_storage [], Err f).
Proof.
  destruct (planner_rejects_only_missing_samples 2 no_samples_task)
    as (_ & Hassert & _).
  destruct (planner_rejects_only_missing_samples 2 (single_task 0))
    as (_ & _ & Hzero & _).
  destruct (planner_rejects_only_missing_samples 2
              (proto.task_set no_samples_job)) as (_ & _ & _ & Hjob).
  split; [|split].
  - apply (Hassert [proto.mkTask [one_sample [10; 11; 12]]] (proto.mkTask []) []);
      [lia | reflexivity | | reflexivity].
    repeat constructor; vm_compute; congruence.
  - destruct Hzero as (items & entries & Hok & Hnone).
    + lia.
    + repeat constructor; vm_compute; congruence.
    + exists items, entries. split; [exact Hok|].
      apply (Hnone 0%nat (proto.mkTask [one_sample []])); reflexivity.
  - apply (Hjob 1 frame_columns (fun _ => StatusOK) one_worker_master
             empty_storage no_samples_job []); reflexivity.
Defined.

(** C10. The two arrays the planner returns have the same length, the
    [k]-th entry carries [io_item_index = k], and so the worker's lookup
    [load_work_entries[k]] of an item id [k] below the number of items
    finds the entry of the [k]-th item. *)
Theorem load_work_entries_aligned io_item_size task_set items entries :
  create_io_items io_item_size task_set [] [] = Ok (items, entries) ->
  length entries = length items /\
  (forall k e, entries !! k = Some e -> io_item_index e = Z.of_nat k) /\
  (forall k, 0 <= k < Z.of_nat (length items) ->
     exists e, entry_at entries k = Ok e /\ io_item_index e = k).
Proof.
  intros H. unfold create_io_items, create_io_items_with_warmup in H.
  apply plan_tasks_graph in H as (items0 & entries0 & [= -> ->] & Hpl).
  simpl in *.
  pose proof (planned_length _ _ _ _ _ _ _ Hpl) as Hlen.
  pose proof (planned_index _ _ _ _ _ _ _ Hpl) as Hidx.
  split; [exact Hlen|]. split.
  - intros k e Hk. rewrite (Hidx _ _ Hk). lia.
  - intros k Hk. unfold entry_at.
    destruct (Z.ltb_spec k 0); [lia|].
    destruct (lookup_lt_is_Some_2 entries0 (Z.to_nat k)) as [e He]; [lia|].
    rewrite He. exists e. split; [reflexivity|].
    rewrite (Hidx _ _ He). lia.
Qed.

(** The three entries of a task of five rows. *)
Lemma load_work_entries_aligned_witness :
  exists items entries,
    create_io_items 2 (single_task 5) [] [] = Ok (items, entries) /\
    length entries = length items /\
    io_item_index <$> entries = [0; 1; 2].
Proof.
  destruct (create_io_items 2 (single_task 5) [] [])
    as [[items entries]|f] eqn:H; [|vm_compute in H; discriminate].
  destruct (load_work_entries_aligned 2 (single_task 5) items entries H)
    as (Hlen & _ & _).
  exists items, entries. split; [reflexivity|]. split; [exact Hlen|].
  vm_compute in H. injection H as <- <-. reflexivity.
Defined.

(** *** The master's cursor *)

Lemma to_i32_small z : i32_range z -> to_i32 z = z.
Proof.
  unfold i32_range, to_i32. intros H.
  rewrite Z.mod_small by lia. lia.
Qed.

(** [NextIOItem], case by case: below [num_io_items_] the reply is the
    cursor, which then moves by one (and stays in the range of [i32]); from
    there on the reply is -1 and the master is unchanged. *)
Lemma NextIOItem_step m :
  (next_io_item_to_allocate_ m < num_io_items_ m ->
   NextIOItem m
   = (mkMasterImpl (next_io_item_to_allocate_ m + 1) (num_io_items_ m)
                   (workers_ m),
      next_io_item_to_allocate_ m)) /\
  (num_io_items_ m <= next_io_item_to_allocate_ m -> NextIOItem m = (m, -1)) /\
  (i32_range (next_io_item_to_allocate_ m) -> i32_range (num_io_items_ m) ->
   i32_range (next_io_item_to_allocate_ (fst (NextIOItem m)))).
Proof.
  unfold NextIOItem, i32_range.
  destruct (Z.ltb_spec (next_io_item_to_allocate_ m) (num_io_items_ m));
    repeat split; simpl; intros; lia || reflexivity.
Qed.

(** Past the last item every call returns -1. *)
Lemma calls_exhausted m k :
  num_io_items_ m <= next_io_item_to_allocate_ m ->
  calls k m = (m, replicate k (-1)).
Proof.
  intros H. induction k as [|k IH]; [reflexivity|].
  cbn [calls]. destruct (NextIOItem_step m) as (_ & Hex & _).
  rewrite (Hex H). cbn [fst snd]. rewrite IH. reflexivity.
Qed.

(** From a cursor [c] below or at [n], the calls return [c], ..., [n - 1]
    and then -1 for ever. *)
Lemma calls_from_cursor c n ws k :
  0 <= c <= n ->
  calls (Z.to_nat (n - c) + k) (mkMasterImpl c n ws)
  = (mkMasterImpl n n ws, seqZ c (n - c) ++ replicate k (-1)).
Proof.
  intros Hc. remember (Z.to_nat (n - c)) as d eqn:Hd.
  revert c Hc Hd. induction d as [|d IH]; intros c Hc Hd.
  - assert (c = n) as -> by lia. rewrite seqZ_nil by lia.
    apply calls_exhausted. simpl. lia.
  - cbn [Nat.add calls].
    destruct (NextIOItem_step (mkMasterImpl c n ws)) as (Hlt & _ & _).
    rewrite Hlt by (simpl; lia).
    cbn [fst snd next_io_item_to_allocate_ num_io_items_ workers_].
    rewrite (IH (c + 1)) by lia. cbn [fst snd].
    rewrite (seqZ_cons c) by lia.
    replace (Z.succ c) with (c + 1) by lia.
    replace (Z.pred (n - c)) with (n - (c + 1)) by lia.
    reflexivity.
Qed.

(** After the first job of a master, the calls return each item id once, in
    ascending order, and then -1. *)
Lemma calls_on_fresh_master n ws k :
  0 <= n ->
  snd (calls (Z.to_nat n + k) (mkMasterImpl 0 n ws))
  = seqZ 0 n ++ replicate k (-1).
Proof.
  intros Hn. pose proof (calls_from_cursor 0 n ws k) as H.
  rewrite Z.sub_0_r in H. rewrite H by lia. reflexivity.
Qed.

(** C2 on the code.  [NewJob] sets [num_io_items_] and leaves the cursor
    where the previous job left it.  On a master that has served a job of
    three items, a second job of two items is planned with the cursor at 3:
    every call to [NextIOItem] returns -1, and the items 0 and 1 of that job
    are never handed out. *)
Theorem second_job_is_never_served :
  exists m,
    master_after_two_jobs = Ok m /\
    num_io_items_ m = 2 /\ next_io_item_to_allocate_ m = 3 /\
    snd (calls 3 m) = [-1; -1; -1] /\
    snd (calls 4 (mkMasterImpl 0 3 (workers_ m))) = [0; 1; 2; -1].
Proof. eexists. repeat split. Qed.

(** *** The master's [NewJob] *)

(** C4, as the text has it, fails: with one worker whose call fails, the
    manifest and the descriptor of the job are written all the same, and
    the call ends as it does when the worker succeeds. *)
Lemma metadata_written_after_worker_failure :
  exists m' st',
    Master_NewJob 2 1 frame_columns (fun _ => StatusError 2)
      one_worker_master empty_storage (single_task_job 5)
    = Ok (m', st',
          [Planned 3; Spawned 0; Joined 0 (StatusError 2);
           ReadDatabaseMetadata; WroteDatabaseMetadata 0; WroteJobMetadata 0]) /\
    job_names (database_metadata st') = [(0, "job")] /\
    jd_id <$> job_descriptors st' = [Some 0].
Proof. do 2 eexists. repeat split. Qed.

(** C4, amended.  A call of [NewJob] that returns has, in this order:
    planned the job, started one request per worker, joined every request,
    and only then read the manifest and written the manifest and the
    descriptor of the job.  The statuses the workers return are not looked
    at: whatever they are, the same manifest and the same descriptor are
    written, and no status is reported. *)
Theorem metadata_written_after_all_joins io_item_size work_item_size
    output_columns worker_reply m st job_params m' st' log :
  Master_NewJob io_item_size work_item_size output_columns worker_reply
    m st job_params = Ok (m', st', log) ->
  let w := length (workers_ m) in
  let job_id := next_job_id (database_metadata st) in
  (exists n,
     log = [Planned n] ++ (Spawned <$> seq 0 w) ++
           ((fun k => Joined k (worker_reply k)) <$> seq 0 w) ++
           [ReadDatabaseMetadata; WroteDatabaseMetadata job_id;
            WroteJobMetadata job_id]) /\
  (exists d,
     st' = mkStorage (snd (add_job (database_metadata st)
                                   (proto.job_name job_params)))
                     (job_descriptors st ++ [d]) /\
     jd_id d = Some job_id /\
     jd_name d = Some (proto.job_name job_params)) /\
  (forall worker_reply',
     exists log',
       Master_NewJob io_item_size work_item_size output_columns worker_reply'
         m st job_params = Ok (m', st', log')).
Proof.
  intros H w job_id. unfold Master_NewJob in *.
  apply bind_Ok_inv in H as (ev & Hev & H).
  apply bind_Ok_inv in H as (cs & Hcs & H).
  apply bind_Ok_inv in H as (planned & Hp & H).
  injection H as <- <- <-. rewrite !imap_seq_0.
  split; [eauto|]. split.
  - eexists. split; [reflexivity|]. split; reflexivity.
  - intros reply'. rewrite Hev. cbn [bind]. rewrite Hcs. cbn [bind].
    rewrite Hp. cbn [bind]. eexists. reflexivity.
Qed.

(** One worker, whose call fails. *)
Lemma metadata_written_after_all_joins_witness :
  exists m' st' log,
    Master_NewJob 2 1 frame_columns (fun _ => StatusError 2)
      one_worker_master empty_storage (single_task_job 5)
    = Ok (m', st', log) /\
    log = [Planned 3; Spawned 0; Joined 0 (StatusError 2);
           ReadDatabaseMetadata; WroteDatabaseMetadata 0; WroteJobMetadata 0].
Proof.
  destruct (Master_NewJob 2 1 frame_columns (fun _ => StatusError 2)
              one_worker_master empty_storage (single_task_job 5))
    as [[[m' st'] log]|f] eqn:H; [|vm_compute in H; discriminate].
  destruct (metadata_written_after_all_joins _ _ _ _ _ _ _ _ _ _ H)
    as ((n & Hlog) & _ & _).
  exists m', st', log. split; [reflexivity|].
  vm_compute in H. injection H as <- <- <-. reflexivity.
Defined.

(** *** Kernel binding *)

(** C8. The devices of an evaluator, by device type: a CPU evaluator gets
    the CPU device and nothing else; a GPU evaluator with a device count
    [d >= 0], on a node with at least one GPU id, gets [d] devices, the
    [i]-th being GPU number [i mod num_gpus]; any other device type is
    fatal.  Kernel binding computes the devices of every evaluator this way,
    with the number of local GPU ids as [num_gpus]. *)
Theorem kernel_devices_by_device_type CPU_DEVICE num_gpus evaluator :
  (proto.device_type evaluator = proto.CPU ->
   kernel_devices CPU_DEVICE num_gpus evaluator = Ok [CPU_DEVICE]) /\
  (proto.device_type evaluator = proto.GPU ->
   0 <= proto.device_count evaluator -> 0 < num_gpus ->
   kernel_devices CPU_DEVICE num_gpus evaluator
   = Ok ((fun i => mkDeviceHandle proto.GPU (i mod num_gpus))
           <$> seqZ 0 (proto.device_count evaluator)) /\
   Z.of_nat (length (seqZ 0 (proto.device_count evaluator)))
   = proto.device_count evaluator) /\
  (forall tag, proto.device_type evaluator = proto.UnknownDevice tag ->
   kernel_devices CPU_DEVICE num_gpus evaluator = Err LogFatal) /\
  (forall GPU_DEVICE_IDS KernelFactory get_kernel EvaluatorInfo
          get_evaluator_info job_params
          (bound : list (KernelFactory * KernelConfig)),
     num_gpus = to_i32 (Z.of_nat (length GPU_DEVICE_IDS)) ->
     bind_kernels CPU_DEVICE GPU_DEVICE_IDS KernelFactory get_kernel
       EvaluatorInfo get_evaluator_info job_params = Ok bound ->
     Forall2 (fun ev fc =>
       kernel_devices CPU_DEVICE num_gpus ev = Ok (devices (snd fc)))
       (proto.evaluators (proto.task_set job_params)) bound).
Proof.
  unfold kernel_devices. split; [|split; [|split]].
  - intros ->. reflexivity.
  - intros -> Hd Hn. split; [|rewrite length_seqZ; lia].
    unfold for_i32. apply collect_Ok_fmap.
    apply Forall_seqZ. intros i Hi.
    destruct (Z.eqb_spec num_gpus 0); [lia|].
    rewrite Z.rem_mod_nonneg by lia. reflexivity.
  - intros tag ->. reflexivity.
  - intros ids KF get_kernel EI get_info jp bound -> H.
    unfold bind_kernels in H. apply collect_Ok_inv in H.
    eapply Forall2_impl; [exact H|]. simpl. intros ev fc Hb.
    unfold bind_kernel in Hb.
    apply bind_Ok_inv in Hb as (kf & _ & Hb).
    apply bind_Ok_inv in Hb as (cols & _ & Hb).
    apply bind_Ok_inv in Hb as (devs & Hdevs & Hb).
    injection Hb as <-. exact Hdevs.
Qed.

(** A GPU evaluator with a device count of 2 on a node with the GPU ids
    0, 1, 2. *)
Lemma kernel_devices_by_device_type_witness :
  kernel_devices (mkDeviceHandle proto.CPU 0) 3
    (proto.mkEvaluator "net" proto.GPU 2 [] [])
  = Ok [mkDeviceHandle proto.GPU 0; mkDeviceHandle proto.GPU 1] /\
  bind_kernels (mkDeviceHandle proto.CPU 0) [0; 1; 2] unit
    (fun _ _ => Ok tt) unit (fun _ => Ok tt)
    (proto.mkJobParameters "job"
       (proto.mkTaskSet [] [proto.mkEvaluator "net" proto.GPU 2 [] []]))
  = Ok [(tt, mkKernelConfig [] []
               [mkDeviceHandle proto.GPU 0; mkDeviceHandle proto.GPU 1])].
Proof.
  destruct (kernel_devices_by_device_type (mkDeviceHandle proto.CPU 0) 3
              (proto.mkEvaluator "net" proto.GPU 2 [] []))
    as (_ & Hgpu & _ & Hbind).
  destruct Hgpu as [Hdevs _]; [reflexivity | simpl; lia | lia |].
  split; [exact Hdevs|].
  destruct (bind_kernels (mkDeviceHandle proto.CPU 0) [0; 1; 2] unit
              (fun _ _ => Ok tt) unit (fun _ => Ok tt)
              (proto.mkJobParameters "job"
                 (proto.mkTaskSet [] [proto.mkEvaluator "net" proto.GPU 2 [] []])))
    as [bound|f] eqn:Hb; [|vm_compute in Hb; discriminate].
  pose proof (Hbind [0; 1; 2] unit (fun _ _ => Ok tt) unit (fun _ => Ok tt)
                _ bound eq_refl Hb) as Hall.
  vm_compute in Hb. injection Hb as <-. reflexivity.
Defined.

(** *** The control loop *)

(** C9. When the bound PUS_PER_NODE * TASKS_IN_QUEUE_PER_PU is not negative
    (and fits an [i32]), every state the control loop goes through has
    [retired <= accepted <= retired + bound].  A turn asks the master only
    when [accepted - retired] is below the bound, and yields otherwise; on
    a reply other than -1 (which is then not negative) it pushes
    [load_work_entries[id]] into the load queue and counts one more accepted
    item; on -1 it leaves the loop with the counters unchanged. *)
Theorem control_loop_bounds_in_flight PUS_PER_NODE TASKS_IN_QUEUE_PER_PU
    load_work_entries c :
  0 <= PUS_PER_NODE * TASKS_IN_QUEUE_PER_PU < 2 ^ 31 ->
  reachable PUS_PER_NODE TASKS_IN_QUEUE_PER_PU load_work_entries c ->
  let bound := PUS_PER_NODE * TASKS_IN_QUEUE_PER_PU in
  (retired_items c <= accepted_items c <= retired_items c + bound) /\
  forall t c',
    control_turn PUS_PER_NODE TASKS_IN_QUEUE_PER_PU load_work_entries c
    = Ok (t, c') ->
    match t with
    | Yielded => bound <= accepted_items c - retired_items c /\ c' = c
    | Accepted id =>
        accepted_items c - retired_items c < bound /\
        NextIOItem (master c) = (master c', id) /\ 0 <= id /\
        exists entry,
          entry_at load_work_entries id = Ok entry /\
          load_pushed c' = load_pushed c ++ [entry] /\
          accepted_items c' = accepted_items c + 1 /\
          retired_items c' = retired_items c
    | NoMoreWork =>
        accepted_items c - retired_items c < bound /\
        NextIOItem (master c) = (master c', -1) /\
        load_pushed c' = load_pushed c /\
        accepted_items c' = accepted_items c /\
        retired_items c' = retired_items c
    end.
Proof.
  intros Hb Hreach bound.
  assert (Hturn : forall c t c',
    retired_items c <= accepted_items c <= retired_items c + bound ->
    control_turn PUS_PER_NODE TASKS_IN_QUEUE_PER_PU load_work_entries c
    = Ok (t, c') ->
    match t with
    | Yielded => bound <= accepted_items c - retired_items c /\ c' = c
    | Accepted id =>
        accepted_items c - retired_items c < bound /\
        NextIOItem (master c) = (master c', id) /\ 0 <= id /\
        exists entry,
          entry_at load_work_entries id = Ok entry /\
          load_pushed c' = load_pushed c ++ [entry] /\
          accepted_items c' = accepted_items c + 1 /\
          retired_items c' = retired_items c
    | NoMoreWork =>
        accepted_items c - retired_items c < bound /\
        NextIOItem (master c) = (master c', -1) /\
        load_pushed c' = load_pushed c /\
        accepted_items c' = accepted_items c /\
        retired_items c' = retired_items c
    end).
  { clear c Hreach. intros c t c' Hinv H. unfold control_turn in H.
    rewrite to_i32_small in H by (unfold i32_range; subst bound; lia).
    fold bound in H.
    destruct (Z.ltb_spec (accepted_items c - retired_items c) bound) as [Hlt|Hge].
    - destruct (NextIOItem (master c)) as [m' id] eqn:Hnext. simpl in H.
      destruct (Z.eqb_spec id (-1)) as [->|Hid].
      + injection H as <- <-. simpl. auto.
      + apply bind_Ok_inv in H as (entry & He & H). injection H as <- <-.
        simpl. repeat split; [assumption|..].
        * unfold entry_at in He. destruct (Z.ltb_spec id 0); [discriminate|lia].
        * eauto.
    - injection H as <- <-. auto. }
  assert (Hinv : retired_items c <= accepted_items c
                 <= retired_items c + bound).
  { induction Hreach as [m | c c' _ IH Hstep | c t c' _ IH Hstep]; simpl.
    - subst bound. lia.
    - destruct Hstep as (Ha & _ & Hr & _). lia.
    - specialize (Hturn _ _ _ IH Hstep). destruct t.
      + destruct Hturn as [_ ->]. exact IH.
      + destruct Hturn as (Hlt & _ & _ & e & _ & _ & -> & ->). lia.
      + destruct Hturn as (_ & _ & _ & -> & ->). exact IH. }
  split; [exact Hinv|]. intros t c'. apply Hturn, Hinv.
Qed.

(** One PU with two tasks per queue: after two accepted items the loop
    yields. *)
Lemma control_loop_bounds_in_flight_witness :
  let c := mkControl 2 0 (take 2 five_row_entries) (mkMasterImpl 2 3 []) in
  reachable 1 2 five_row_entries c /\
  retired_items c <= accepted_items c <= retired_items c + 1 * 2 /\
  control_turn 1 2 five_row_entries c = Ok (Yielded, c).
Proof.
  intros c.
  assert (Hreach : reachable 1 2 five_row_entries c).
  { apply (reach_turn 1 2 _
             (mkControl 1 0 (take 1 five_row_entries) (mkMasterImpl 1 3 []))
             (Accepted 1)); [|reflexivity].
    apply (reach_turn 1 2 _ (mkControl 0 0 [] (mkMasterImpl 0 3 []))
             (Accepted 0)); [|reflexivity].
    apply reach_start. }
  destruct (control_loop_bounds_in_flight 1 2 five_row_entries c)
    as [Hinv Hturn]; [lia | exact Hreach |].
  split; [exact Hreach|]. split; [exact Hinv|]. reflexivity.
Defined.

(** *** Draining the pipeline *)

Lemma repeat_i32_singleton (n : Z) (f : Z -> worker_action) :
  repeat_i32 n (fun i => [f i]) = f <$> seqZ 0 n.
Proof.
  unfold repeat_i32. induction (seqZ 0 n) as [|i l IH]; [reflexivity|].
  rewrite !fmap_cons. cbn [concat]. rewrite IH. reflexivity.
Qed.

Lemma fmap_constant {A B} (x : B) (l : list A) :
  (fun _ => x) <$> l = replicate (length l) x.
Proof. induction l as [|y l IH]; [reflexivity|]. rewrite fmap_cons, IH. reflexivity. Qed.

Lemma and_then_running log (b : driver) :
  and_then (log, false) b = (log ++ fst b, snd b).
Proof. reflexivity. Qed.

Section DrainFacts.

Variable pthread_join : stage -> Z -> Z.
Hypothesis joins_succeed : forall s i, pthread_join s i = 0.

Lemma joins_from_all s threads :
  joins_from pthread_join s threads = (Join s <$> threads, false).
Proof.
  induction threads as [|i threads IH]; [reflexivity|].
  cbn [joins_from]. rewrite joins_succeed, IH. reflexivity.
Qed.

Lemma joins_all s n : joins pthread_join s n = (Join s <$> seqZ 0 n, false).
Proof. apply joins_from_all. Qed.

End DrainFacts.

(** Counting the actions of a kind in a log made of segments. *)
Lemma count_actions_app p l1 l2 :
  count_actions p (l1 ++ l2) = (count_actions p l1 + count_actions p l2)%nat.
Proof. unfold count_actions. by rewrite filter_app, length_app. Qed.

Lemma count_actions_fmap {A} p (f : A -> worker_action) (b : bool) (l : list A) :
  (forall x, p (f x) = b) ->
  count_actions p (f <$> l) = if b then length l else 0%nat.
Proof.
  intros Hp. unfold count_actions. destruct b.
  - rewrite filter_all, length_fmap; [reflexivity|].
    apply Forall_fmap, Forall_forall. intros x _. apply Hp.
  - rewrite filter_none; [reflexivity|].
    apply Forall_fmap, Forall_forall. intros x _. simpl. rewrite Hp. discriminate.
Qed.

Lemma count_actions_replicate p a (b : bool) n :
  p a = b -> count_actions p (replicate n a) = if b then n else 0%nat.
Proof.
  intros Hp. unfold count_actions. destruct b.
  - rewrite filter_all, length_replicate; [reflexivity|].
    by apply Forall_replicate.
  - rewrite filter_none; [reflexivity|].
    apply Forall_replicate. rewrite Hp. discriminate.
Qed.

Lemma count_actions_repeat p (body : Z -> list worker_action) (c : nat) n :
  (forall i, count_actions p (body i) = c) ->
  count_actions p (repeat_i32 n body) = (c * Z.to_nat n)%nat.
Proof.
  intros Hc. unfold repeat_i32. rewrite <- (length_seqZ 0 n).
  induction (seqZ 0 n) as [|i l IH].
  - simpl length. rewrite Nat.mul_0_r. reflexivity.
  - rewrite fmap_cons. cbn [concat]. rewrite count_actions_app, Hc, IH.
    simpl length. lia.
Qed.

Lemma feeds_eval_work s pu k :
  feeds s (eval_work pu k)
  = match s with
    | Eval => k =? 1
    | PostEval => k =? 2
    | _ => false
    end.
Proof.
  unfold feeds. destruct s; simpl; try reflexivity.
  - destruct (Z.eqb_spec k 1) as [->|Hk].
    + by rewrite bool_decide_eq_true_2.
    + rewrite bool_decide_eq_false_2; [reflexivity | congruence].
  - destruct (Z.eqb_spec k 2) as [->|Hk].
    + by rewrite bool_decide_eq_true_2.
    + rewrite bool_decide_eq_false_2; [reflexivity | congruence].
Qed.

(** C6. When every join succeeds, the driver does this and nothing else, in
    this order: LOAD_WORKERS_PER_NODE sentinels into the load queue, the
    joins of the load threads; PUS_PER_NODE sentinels into the initial-eval
    queue, the joins of the pre-eval threads; one sentinel into queue 1 of
    each PU, the joins of the eval threads; one sentinel into queue 2 of
    each PU, the joins of the post-eval threads; SAVE_WORKERS_PER_NODE
    sentinels into the save queue, the joins of the save threads.  For every
    stage, the sentinels pushed into the queues its threads pop from are as
    many as the threads created for it. *)
Theorem drain_pushes_one_sentinel_per_thread LOAD_WORKERS_PER_NODE
    PUS_PER_NODE SAVE_WORKERS_PER_NODE pthread_join :
  (forall s i, pthread_join s i = 0) ->
  let log :=
    replicate (Z.to_nat LOAD_WORKERS_PER_NODE) (Push load_work (-1)) ++
    (Join Load <$> seqZ 0 LOAD_WORKERS_PER_NODE) ++
    replicate (Z.to_nat PUS_PER_NODE) (Push initial_eval_work (-1)) ++
    (Join PreEval <$> seqZ 0 PUS_PER_NODE) ++
    ((fun pu => Push (eval_work pu 1) (-1)) <$> seqZ 0 PUS_PER_NODE) ++
    (Join Eval <$> seqZ 0 PUS_PER_NODE) ++
    ((fun pu => Push (eval_work pu 2) (-1)) <$> seqZ 0 PUS_PER_NODE) ++
    (Join PostEval <$> seqZ 0 PUS_PER_NODE) ++
    replicate (Z.to_nat SAVE_WORKERS_PER_NODE) (Push save_work (-1)) ++
    (Join Save <$> seqZ 0 SAVE_WORKERS_PER_NODE) in
  drain LOAD_WORKERS_PER_NODE PUS_PER_NODE SAVE_WORKERS_PER_NODE pthread_join
  = (log, false) /\
  forall s,
    count_actions (is_sentinel_for s) log
    = Z.to_nat (stage_threads LOAD_WORKERS_PER_NODE PUS_PER_NODE
                              SAVE_WORKERS_PER_NODE s) /\
    count_actions (is_thread_of s)
      (launch LOAD_WORKERS_PER_NODE PUS_PER_NODE SAVE_WORKERS_PER_NODE)
    = Z.to_nat (stage_threads LOAD_WORKERS_PER_NODE PUS_PER_NODE
                              SAVE_WORKERS_PER_NODE s).
Proof.
  intros Hjoin log. split.
  - unfold drain, pushes. rewrite !joins_all by exact Hjoin.
    rewrite !repeat_i32_singleton, !and_then_running. cbn [fst snd].
    rewrite !fmap_constant, !length_seqZ. reflexivity.
  - intros s. split.
    + subst log. rewrite !count_actions_app.
      rewrite !(count_actions_fmap (is_sentinel_for s) (Join _) false)
        by reflexivity.
      rewrite (count_actions_fmap _ (fun pu => Push (eval_work pu 1) (-1))
                 (feeds s (eval_work 0 1)))
        by (intros pu; simpl; rewrite !feeds_eval_work, andb_true_r; reflexivity).
      rewrite (count_actions_fmap _ (fun pu => Push (eval_work pu 2) (-1))
                 (feeds s (eval_work 0 2)))
        by (intros pu; simpl; rewrite !feeds_eval_work, andb_true_r; reflexivity).
      rewrite !(count_actions_replicate _ _ _ _ eq_refl), !length_seqZ.
      destruct s; simpl; lia.
    + unfold launch. rewrite !count_actions_app.
      rewrite (count_actions_repeat _ _
                 (if bool_decide (Load = s) then 1 else 0)%nat)
        by (intros i; unfold count_actions; simpl; by destruct s).
      rewrite (count_actions_repeat _ _
                 (match s with PreEval | Eval | PostEval => 1 | _ => 0 end)%nat)
        by (intros i; unfold count_actions; simpl; by destruct s).
      rewrite (count_actions_repeat _ _
                 (if bool_decide (Save = s) then 1 else 0)%nat)
        by (intros i; unfold count_actions; simpl; by destruct s).
      destruct s; simpl; lia.
Qed.

(** Two load threads, one PU, one save thread. *)
Lemma drain_pushes_one_sentinel_per_thread_witness :
  drain 2 1 1 (fun _ _ => 0)
  = ([Push load_work (-1); Push load_work (-1); Join Load 0; Join Load 1;
      Push initial_eval_work (-1); Join PreEval 0;
      Push (eval_work 0 1) (-1); Join Eval 0;
      Push (eval_work 0 2) (-1); Join PostEval 0;
      Push save_work (-1); Join Save 0], false).
Proof.
  destruct (drain_pushes_one_sentinel_per_thread 2 1 1 (fun _ _ => 0))
    as [Hlog _]; [reflexivity|].
  exact Hlog.
Defined.


(** ** Further results *)

(** *** The planner in closed form *)

Lemma items_in_task_spec io_item_size n k :
  0 < io_item_size -> (k * io_item_size < n <-> k < items_in_task io_item_size n).
Proof.
  intros Hio. unfold items_in_task. split; intros H.
  - assert (k + 1 <= (n + io_item_size - 1) / io_item_size); [|lia].
    apply Z.div_le_lower_bound; [assumption | nia].
  - destruct (Z.ltb_spec (k * io_item_size) n) as [|Hge]; [assumption|].
    exfalso.
    assert ((n + io_item_size - 1) / io_item_size < k + 1); [|lia].
    apply Z.div_lt_upper_bound; [assumption | nia].
Qed.

Lemma rows_in_task_nonneg task : 0 <= rows_in_task task.
Proof. unfold rows_in_task. destruct (proto.samples task); lia. Qed.

Section ClosedForm.

Variable io_item_size : Z.
Hypothesis io_item_size_pos : 0 < io_item_size.

Lemma slices_closed_form w i task n id a base items entries :
  slices io_item_size w i task n id a base items entries ->
  a = Z.min (id * io_item_size) n ->
  items = nth_item io_item_size i n
            <$> seqZ id (items_in_task io_item_size n - id).
Proof.
  induction 1 as [id a base Hdone | id a base r ls items entries Han Hr _ _ IH];
    intros Ha.
  - rewrite seqZ_nil; [reflexivity|].
    destruct (Z.ltb_spec id (items_in_task io_item_size n)) as [Hlt|]; [|lia].
    apply items_in_task_spec in Hlt; [lia | assumption].
  - assert (Hlt : id < items_in_task io_item_size n)
      by (apply items_in_task_spec; [assumption | lia]).
    rewrite seqZ_cons by lia. rewrite fmap_cons. f_equal.
    + unfold nth_item. f_equal; [lia | nia].
    + rewrite IH by nia. do 2 f_equal; lia.
Qed.

Lemma planned_closed_form w i tasks base items entries :
  planned io_item_size w i tasks base items entries ->
  items = concat (imap (fun j task =>
            task_items io_item_size (i + Z.of_nat j) (rows_in_task task)) tasks).
Proof.
  induction 1 as [|i task tasks base its es its' es' _ Hsl _ IH];
    [reflexivity|].
  rewrite imap_cons. cbn [concat]. f_equal.
  - rewrite Z.add_0_r. unfold task_items.
    pose proof (rows_in_task_nonneg task).
    rewrite (slices_closed_form _ _ _ _ _ _ _ _ _ Hsl) by lia.
    by rewrite Z.sub_0_r.
  - rewrite IH. f_equal. apply imap_ext. intros j t _. simpl.
    f_equal. lia.
Qed.

End ClosedForm.

Lemma planned_entries_closed_form io_item_size tasks items entries :
  planned io_item_size 0 0 tasks 0 items entries ->
  entries = all_entries tasks items.
Proof.
  intros Hpl.
  pose proof (planned_windows _ _ _ _ _ _ _ Hpl (Z.le_refl 0)) as Hwin.
  pose proof (planned_index _ _ _ _ _ _ _ Hpl) as Hidx.
  pose proof (planned_length _ _ _ _ _ _ _ Hpl) as Hlen.
  apply list_eq. intros k. unfold all_entries. rewrite list_lookup_imap.
  destruct (items !! k) as [it|] eqn:Hit; destruct (entries !! k) as [e|] eqn:He;
    simpl.
  - destruct (Forall2_lookup_lr _ _ _ _ _ _ Hwin Hit He)
      as (task & _ & Hlook & Hsam & _).
    specialize (Hidx _ _ He). rewrite Z.sub_0_r in Hlook.
    unfold entry_of. rewrite Hlook. destruct e as [idx ss]. simpl in *.
    f_equal. f_equal; [lia | exact Hsam].
  - apply lookup_lt_Some in Hit. apply lookup_ge_None in He. lia.
  - apply lookup_lt_Some in He. apply lookup_ge_None in Hit. lia.
  - reflexivity.
Qed.

(** X1. What the planner returns, when IO_ITEM_SIZE is positive, in closed
    form: the items are, task after task, the ranges
    [k * IO_ITEM_SIZE, min ((k + 1) * IO_ITEM_SIZE) N) for k = 0, 1, ...
    below N / IO_ITEM_SIZE rounded up, and the entry at position [k] holds
    [k] and, for every sample of the task of the [k]-th item, the rows of
    the sample over the range of that item. *)
Theorem create_io_items_closed_form io_item_size task_set items entries :
  0 < io_item_size ->
  create_io_items io_item_size task_set [] [] = Ok (items, entries) ->
  items = all_items io_item_size (proto.tasks task_set) /\
  entries = all_entries (proto.tasks task_set) items.
Proof.
  intros Hio H. unfold create_io_items, create_io_items_with_warmup in H.
  apply plan_tasks_graph in H as (items0 & entries0 & [= -> ->] & Hpl).
  simpl in Hpl. split.
  - rewrite (planned_closed_form _ Hio _ _ _ _ _ _ Hpl). unfold all_items.
    f_equal.
  - eapply planned_entries_closed_form, Hpl.
Qed.

(** Three tasks of 5, 0 and 2 rows with IO_ITEM_SIZE = 2. *)
Lemma create_io_items_closed_form_witness :
  exists items entries,
    create_io_items 2 three_tasks [] [] = Ok (items, entries) /\
    items = [mkIOItem 0 0 0 2; mkIOItem 0 1 2 4; mkIOItem 0 2 4 5;
             mkIOItem 2 0 0 2] /\
    entries = all_entries (proto.tasks three_tasks) items.
Proof.
  destruct (create_io_items 2 three_tasks [] [])
    as [[items entries]|f] eqn:H; [|vm_compute in H; discriminate].
  destruct (create_io_items_closed_form 2 three_tasks items entries)
    as [Hitems Hentries]; [lia | exact H |].
  exists items, entries. split; [reflexivity|]. split; [|exact Hentries].
  rewrite Hitems. reflexivity.
Defined.

(** *** When the planner returns *)

Lemma slices_covered io_item_size w i task n id a base items entries :
  slices io_item_size w i task n id a base items entries ->
  0 <= w -> 0 <= a -> a < n ->
  Forall (fun s => n <= Z.of_nat (length (proto.rows s))) (proto.samples task).
Proof.
  intros H. pose proof (slices_progress _ _ _ _ _ _ _ _ _ _ H) as Hio.
  induction H as [|id a base r ls items entries Han Hr Hls Hrest IH];
    intros Hw Ha Hlt; [lia|].
  specialize (Hio Han).
  destruct (Z.ltb_spec (a + r) n) as [Hmore|Hlast].
  - apply IH; [intros _; exact Hio | assumption | lia | assumption].
  - apply collect_Ok_inv in Hls. apply Forall_forall. intros s Hs.
    apply list_elem_of_lookup in Hs as [k Hk].
    destruct (Forall2_lookup_l _ _ _ _ _ Hls Hk) as (l & _ & Hl).
    unfold load_sample in Hl. apply bind_Ok_inv in Hl as (rs & Hrs & _).
    apply add_rows_Ok_inv in Hrs as (_ & _ & Hin); [|lia].
    assert (a + r <= Z.of_nat (length (proto.rows s))) by (apply Hin; lia).
    lia.
Qed.

Lemma planned_covered io_item_size w i tasks base items entries :
  planned io_item_size w i tasks base items entries ->
  0 <= w -> Forall covered tasks.
Proof.
  induction 1 as [|i task tasks base its es its' es' Hne Hsl _ IH]; intros Hw;
    constructor; [|by apply IH].
  split; [exact Hne|].
  destruct (Z.ltb_spec 0 (rows_in_task task)) as [Hpos|Hzero].
  - eapply slices_covered; [exact Hsl | assumption | lia | assumption].
  - apply Forall_forall. intros s _. lia.
Qed.

(** X2. With a positive IO_ITEM_SIZE the planner returns exactly when every
    task has a sample and no sample of a task has fewer rows than the first.
    When it does not return, it has failed the assertion on the samples or
    read a row outside a sample; it has not looped. *)
Theorem create_io_items_returns_iff_covered io_item_size task_set :
  0 < io_item_size ->
  (is_ok (create_io_items io_item_size task_set [] []) = true <->
   Forall covered (proto.tasks task_set)) /\
  (forall f, create_io_items io_item_size task_set [] [] = Err f ->
     f = AssertFailed \/ f = OutOfBounds).
Proof.
  intros Hio. unfold create_io_items, create_io_items_with_warmup. split.
  - split.
    + destruct (plan_tasks io_item_size 0 0 (proto.tasks task_set) [] [])
        as [out|f] eqn:H; [intros _ | discriminate].
      apply plan_tasks_graph in H as (items & entries & _ & Hpl).
      eapply planned_covered; [exact Hpl | lia].
    + intros Hcov. by apply plan_tasks_total.
  - intros f. by apply plan_tasks_Err_inv.
Qed.

(** A task whose second sample lacks a row: the planner reads outside it. *)
Lemma create_io_items_returns_iff_covered_witness :
  create_io_items 2 short_sample_task [] [] = Err OutOfBounds /\
  ~ Forall covered (proto.tasks short_sample_task).
Proof.
  destruct (create_io_items_returns_iff_covered 2 short_sample_task)
    as [Hiff Herr]; [lia|].
  split; [reflexivity|].
  intros Hcov. apply Hiff in Hcov. vm_compute in Hcov. discriminate.
Defined.

(** X3. A task of N rows gets N / IO_ITEM_SIZE (rounded up) items: the
    ranges of the closed form.  A task that fits one item, 0 < N <=
    IO_ITEM_SIZE, gets the single item [0, N). *)
Theorem items_per_task io_item_size task_set items entries j task :
  0 < io_item_size ->
  create_io_items io_item_size task_set [] [] = Ok (items, entries) ->
  proto.tasks task_set !! j = Some task ->
  let n := rows_in_task task in
  items_of_task (Z.of_nat j) items = task_items io_item_size (Z.of_nat j) n /\
  length (items_of_task (Z.of_nat j) items)
  = Z.to_nat (items_in_task io_item_size n) /\
  (0 < n <= io_item_size ->
   items_of_task (Z.of_nat j) items = [mkIOItem (Z.of_nat j) 0 0 n]).
Proof.
  intros Hio H Hj n. unfold create_io_items, create_io_items_with_warmup in H.
  apply plan_tasks_graph in H as (items0 & entries0 & [= -> ->] & Hpl).
  simpl in Hpl.
  destruct (planned_items_of_task _ _ _ _ _ _ _ j task Hpl Hj) as (b & es & Hsl).
  rewrite Z.add_0_l in Hsl. pose proof (rows_in_task_nonneg task).
  apply (slices_closed_form _ Hio) in Hsl; [|fold n; lia].
  rewrite Z.sub_0_r in Hsl. fold n in Hsl.
  assert (Heq : items_of_task (Z.of_nat j) items0
                = task_items io_item_size (Z.of_nat j) n) by exact Hsl.
  split; [exact Heq|]. split.
  - rewrite Heq. unfold task_items. by rewrite length_fmap, length_seqZ.
  - intros Hn. rewrite Heq. unfold task_items.
    assert (items_in_task io_item_size n = 1) as ->.
    { pose proof (items_in_task_spec io_item_size n 0 Hio) as H0.
      pose proof (items_in_task_spec io_item_size n 1 Hio) as H1. lia. }
    rewrite seqZ_cons, seqZ_nil by lia. simpl. unfold nth_item.
    f_equal. f_equal; lia.
Qed.

(** The task of 2 rows of [three_tasks], with IO_ITEM_SIZE = 2. *)
Lemma items_per_task_witness :
  exists items entries,
    create_io_items 2 three_tasks [] [] = Ok (items, entries) /\
    items_of_task 2 items = [mkIOItem 2 0 0 2] /\
    items_of_task 1 items = [].
Proof.
  destruct (create_io_items 2 three_tasks [] [])
    as [[items entries]|f] eqn:H; [|vm_compute in H; discriminate].
  exists items, entries. split; [reflexivity|]. split.
  - destruct (items_per_task 2 three_tasks items entries 2%nat
                (proto.mkTask [one_sample [30; 31]]))
      as (_ & _ & Hone); [lia | exact H | reflexivity |].
    apply Hone. vm_compute. split; [reflexivity | discriminate].
  - destruct (items_per_task 2 three_tasks items entries 1%nat
                (proto.mkTask [one_sample []]))
      as (Hall & _ & _); [lia | exact H | reflexivity |].
    exact Hall.
Defined.

(** *** A stride that is not positive *)

Lemma planned_slices_of io_item_size w i tasks base items entries task :
  planned io_item_size w i tasks base items entries ->
  task ∈ tasks ->
  exists i' b its es,
    slices io_item_size w i' task (rows_in_task task) 0 0 b its es.
Proof.
  induction 1 as [|i t tasks base its es its' es' _ Hsl _ IH]; intros Hin.
  - by apply elem_of_nil in Hin.
  - apply elem_of_cons in Hin as [->|Hin]; eauto 6.
Qed.

(** X4. With an IO_ITEM_SIZE that is zero or negative, the planner returns
    exactly when every task has a sample and no task has a row, and it then
    adds nothing to its vectors; with a single row in a single task the
    while loop cannot advance and the planner never returns. *)
Theorem create_io_items_without_stride io_item_size task_set
    io_items load_work_entries :
  io_item_size <= 0 ->
  (is_ok (create_io_items io_item_size task_set io_items load_work_entries)
   = true <->
   Forall (fun task => proto.samples task <> [] /\ rows_in_task task = 0)
          (proto.tasks task_set)) /\
  (forall out,
     create_io_items io_item_size task_set io_items load_work_entries = Ok out ->
     out = (io_items, load_work_entries)).
Proof.
  intros Hio. unfold create_io_items, create_io_items_with_warmup.
  assert (Hrows : forall out,
    plan_tasks io_item_size 0 0 (proto.tasks task_set) io_items
      load_work_entries = Ok out ->
    Forall (fun task => proto.samples task <> [] /\ rows_in_task task = 0)
           (proto.tasks task_set)).
  { intros out H.
    apply plan_tasks_graph in H as (items & entries & _ & Hpl).
    apply Forall_forall. intros task Hin. split.
    - eapply Forall_forall in Hin; [|eapply planned_covered; [exact Hpl|lia]].
      apply Hin.
    - destruct (planned_slices_of _ _ _ _ _ _ _ _ Hpl Hin)
        as (i' & b & its & es & Hsl).
      pose proof (rows_in_task_nonneg task).
      destruct (Z.ltb_spec 0 (rows_in_task task)) as [Hpos|]; [|lia].
      apply slices_progress in Hsl; [lia | exact Hpos]. }
  assert (Hnone : forall i tasks ios lws,
    Forall (fun task => proto.samples task <> [] /\ rows_in_task task = 0) tasks ->
    plan_tasks io_item_size 0 i tasks ios lws = Ok (ios, lws)).
  { intros i tasks ios lws Hall. revert i.
    induction Hall as [|task tasks [Hne Hzero] _ IH]; intros i; [reflexivity|].
    simpl. unfold rows_in_task in Hzero.
    destruct (proto.samples task) as [|sample0 rest]; [done|].
    rewrite Hzero. simpl. apply IH. }
  split.
  - split.
    + destruct (plan_tasks _ _ _ _ _ _) as [out|f] eqn:H; [|discriminate].
      intros _. by eapply Hrows.
    + intros Hall. by rewrite Hnone.
  - intros out H. pose proof (Hrows _ H) as Hall.
    rewrite Hnone in H by exact Hall. by injection H as <-.
Qed.

(** IO_ITEM_SIZE = 0: a task without rows passes, a task of one row does
    not. *)
Lemma create_io_items_without_stride_witness :
  create_io_items 0 (single_task 0) [] [] = Ok ([], []) /\
  is_ok (create_io_items 0 (single_task 1) [] []) = false.
Proof.
  destruct (create_io_items_without_stride 0 (single_task 0) [] [])
    as [Hiff _]; [lia|].
  destruct (create_io_items_without_stride 0 (single_task 1) [] [])
    as [Hiff1 _]; [lia|].
  split; [reflexivity|].
  apply not_true_is_false. intros H.
  apply Hiff1 in H. apply Forall_cons in H as [[_ H] _].
  vm_compute in H. discriminate.
Defined.

(** *** The planner on vectors that are not empty *)

Section Rebase.

Variable io_item_size : Z.
Variable warmup_size : Z.
Variable io_items0 : list IOItem.
Variable load_work_entries0 : list LoadWorkEntry.

#[local] Abbreviation shifted :=
  (fmap (shift_index (Z.of_nat (length io_items0)))).

Lemma allocate_rebase fuel i task n id a io_items load_work_entries :
  allocate io_item_size warmup_size fuel i task n id a
    (io_items0 ++ io_items) (load_work_entries0 ++ shifted load_work_entries)
  = rebase io_items0 load_work_entries0
      (allocate io_item_size warmup_size fuel i task n id a
         io_items load_work_entries).
Proof.
  revert id a io_items load_work_entries.
  induction fuel as [|fuel IH]; intros id a ios lws; simpl;
    destruct (a <? n); try reflexivity.
  destruct (collect _ (proto.samples task)) as [ls|f]; [|reflexivity].
  simpl. rewrite <- IH. f_equal.
  - by rewrite app_assoc.
  - rewrite fmap_app, app_assoc. do 2 f_equal. unfold shift_index. simpl.
    rewrite !length_app. simpl length. f_equal. f_equal. lia.
Qed.

Lemma plan_tasks_rebase i tasks io_items load_work_entries :
  plan_tasks io_item_size warmup_size i tasks
    (io_items0 ++ io_items) (load_work_entries0 ++ shifted load_work_entries)
  = rebase io_items0 load_work_entries0
      (plan_tasks io_item_size warmup_size i tasks io_items load_work_entries).
Proof.
  revert i io_items load_work_entries.
  induction tasks as [|task tasks IH]; intros i ios lws; simpl; [reflexivity|].
  destruct (proto.samples task) as [|sample0 rest]; [reflexivity|].
  rewrite allocate_rebase.
  destruct (allocate _ _ _ _ _ _ _ _ _ _) as [[ios' lws']|f]; [|reflexivity].
  simpl. apply IH.
Qed.

End Rebase.

(** X5. The planner appends: called on vectors that already hold items and
    entries, it keeps them and adds what it returns on empty vectors, with
    every new [io_item_index] moved by the number of items already there
    (and it fails alike).  The index of a new entry is thus its position in
    the item vector: it is its position in the entry vector only when the
    two vectors were equally long. *)
Theorem create_io_items_appends io_item_size task_set
    io_items load_work_entries :
  create_io_items io_item_size task_set io_items load_work_entries
  = rebase io_items load_work_entries
      (create_io_items io_item_size task_set [] []) /\
  (forall io_items' load_work_entries' k e,
     create_io_items io_item_size task_set io_items load_work_entries
     = Ok (io_items', load_work_entries') ->
     load_work_entries' !! (length load_work_entries + k)%nat = Some e ->
     io_item_index e = Z.of_nat (length io_items + k) /\
     is_Some (io_items' !! (length io_items + k)%nat)).
Proof.
  unfold create_io_items, create_io_items_with_warmup. split.
  - pose proof (plan_tasks_rebase io_item_size 0 io_items load_work_entries
                  0 (proto.tasks task_set) [] []) as H.
    rewrite app_nil_r in H. simpl in H. rewrite app_nil_r in H. exact H.
  - intros ios' lws' k e H Hk.
    apply plan_tasks_graph in H as (items & entries & [= -> ->] & Hpl).
    rewrite lookup_app_r in Hk by lia.
    replace (length load_work_entries + k - length load_work_entries)%nat
      with k in Hk by lia.
    split.
    + rewrite (planned_index _ _ _ _ _ _ _ Hpl _ _ Hk). lia.
    + apply lookup_lt_is_Some. rewrite length_app.
      apply lookup_lt_Some in Hk.
      rewrite (planned_length _ _ _ _ _ _ _ Hpl) in Hk. lia.
Qed.

(** *** The rows of the entries of a task *)

Lemma window_app s m e sample :
  0 <= s <= m -> m <= e ->
  window s m sample ++ window m e sample = window s e sample.
Proof.
  intros Hs He. unfold window.
  replace (Z.to_nat m) with (Z.to_nat s + Z.to_nat (m - s))%nat by lia.
  rewrite <- drop_drop, take_take_drop. f_equal. lia.
Qed.

Lemma entries_rows_window task its es a n k sample :
  Forall2 (entry_matches 0 task) its es ->
  chained a its n -> 0 <= a ->
  proto.samples task !! k = Some sample ->
  concat (entry_rows k <$> es) = window a n sample.
Proof.
  intros Hm. revert a.
  induction Hm as [|it e its es [Hsam _] _ IH]; intros a Hch Ha Hk;
    simpl in Hch.
  - subst. unfold window. by rewrite Z.sub_diag.
  - destruct Hch as (Hstart & Hlt & Hch).
    pose proof (chained_le _ _ _ Hch) as Hle.
    rewrite fmap_cons. cbn [concat].
    rewrite (IH _ Hch) by (assumption || lia).
    unfold entry_rows at 1. rewrite Hsam, list_lookup_fmap, Hk. simpl.
    rewrite Hstart, Z.sub_0_r, Z.max_l by lia.
    apply window_app; lia.
Qed.

Lemma zip_fst_Forall {A B} (P : A -> Prop) (l : list A) (k : list B) :
  Forall P l -> Forall (fun p => P (fst p)) (zip l k).
Proof.
  intros H. revert k. induction H as [|x l Hx _ IH]; intros [|y k];
    simpl; constructor; auto.
Qed.

Lemma planned_entries_of_task io_item_size w i tasks base items entries j task :
  planned io_item_size w i tasks base items entries ->
  tasks !! j = Some task ->
  exists b,
    slices io_item_size w (i + Z.of_nat j) task (rows_in_task task) 0 0 b
           (items_of_task (i + Z.of_nat j) items)
           (entries_of_task (i + Z.of_nat j) items entries).
Proof.
  intros Hpl. revert j.
  induction Hpl as [|i t tasks base its es its' es' _ Hsl Hpl IH];
    intros j Hj; [discriminate|].
  pose proof (slices_length _ _ _ _ _ _ _ _ _ _ Hsl) as Hlen.
  pose proof (slices_table_id _ _ _ _ _ _ _ _ _ _ Hsl) as Hid.
  pose proof (planned_table_id _ _ _ _ _ _ _ Hpl) as Hid'.
  unfold items_of_task, entries_of_task.
  rewrite zip_with_app by (symmetry; exact Hlen).
  rewrite !filter_app, fmap_app.
  destruct j as [|j]; simpl in Hj.
  - injection Hj as ->. replace (i + Z.of_nat 0) with i by lia.
    rewrite (filter_all _ its) by exact Hid.
    rewrite (filter_all _ (zip its es))
      by exact (zip_fst_Forall (fun it => table_id it = i) _ _ Hid).
    assert (Hno : Forall (fun it => ~ table_id it = i) its').
    { eapply Forall_impl; [exact Hid'|]. simpl. lia. }
    rewrite (filter_none _ its') by exact Hno.
    rewrite (filter_none _ (zip its' es'))
      by exact (zip_fst_Forall (fun it => ~ table_id it = i) _ _ Hno).
    rewrite !app_nil_r, snd_zip by lia. eauto.
  - destruct (IH _ Hj) as (b & Hsl0).
    replace (i + Z.of_nat (S j)) with (i + 1 + Z.of_nat j) by lia.
    assert (Hno : Forall (fun it => ~ table_id it = i + 1 + Z.of_nat j) its).
    { eapply Forall_impl; [exact Hid|]. simpl. lia. }
    rewrite (filter_none _ its) by exact Hno.
    rewrite (filter_none _ (zip its es))
      by exact (zip_fst_Forall
                  (fun it => ~ table_id it = i + 1 + Z.of_nat j) _ _ Hno).
    simpl. eauto.
Qed.

(** X6. No row of a sample is lost or listed twice: for every task and each
    of its samples, the rows that the entries of the task list for that
    sample, put end to end in the order of the entries, are the first N rows
    of the sample (N being the row count of the task); they are the whole
    sample when the sample has N rows. *)
Theorem entries_list_each_row_once io_item_size task_set items entries
    j task k sample :
  create_io_items io_item_size task_set [] [] = Ok (items, entries) ->
  proto.tasks task_set !! j = Some task ->
  proto.samples task !! k = Some sample ->
  let listed :=
    concat (entry_rows k <$> entries_of_task (Z.of_nat j) items entries) in
  listed = take (Z.to_nat (rows_in_task task)) (proto.rows sample) /\
  (Z.of_nat (length (proto.rows sample)) = rows_in_task task ->
   listed = proto.rows sample).
Proof.
  intros H Hj Hk listed. unfold create_io_items, create_io_items_with_warmup in H.
  apply plan_tasks_graph in H as (items0 & entries0 & [= -> ->] & Hpl).
  simpl in Hpl.
  destruct (planned_entries_of_task _ _ _ _ _ _ _ j task Hpl Hj) as (b & Hsl).
  rewrite Z.add_0_l in Hsl. pose proof (rows_in_task_nonneg task) as Hn.
  assert (Hlisted : listed = window 0 (rows_in_task task) sample).
  { eapply entries_rows_window; [| |lia|exact Hk].
    - eapply slices_windows; [exact Hsl | lia | lia].
    - eapply slices_chained; [exact Hsl | exact Hn]. }
  assert (Htake : listed
                  = take (Z.to_nat (rows_in_task task)) (proto.rows sample)).
  { rewrite Hlisted. unfold window. by rewrite Z.sub_0_r. }
  split; [exact Htake|].
  intros Hlen. rewrite Htake. apply take_ge. lia.
Qed.

(** The two samples of a task of 3 rows, cut with IO_ITEM_SIZE = 2. *)
Lemma entries_list_each_row_once_witness :
  exists items entries,
    create_io_items 2 two_sample_task [] [] = Ok (items, entries) /\
    concat (entry_rows 1 <$> entries_of_task 0 items entries) = [20; 21; 22].
Proof.
  destruct (create_io_items 2 two_sample_task [] [])
    as [[items entries]|f] eqn:H; [|vm_compute in H; discriminate].
  exists items, entries. split; [reflexivity|].
  destruct (entries_list_each_row_once 2 two_sample_task items entries
              0%nat (proto.mkTask [one_sample [10; 11; 12];
                                   one_sample [20; 21; 22]])
              1%nat (one_sample [20; 21; 22]) H eq_refl eq_refl)
    as [_ Hall].
  apply Hall. reflexivity.
Defined.

(** *** The cursor from any state *)

Lemma calls_app n1 n2 m :
  calls (n1 + n2) m
  = (fst (calls n2 (fst (calls n1 m))),
     snd (calls n1 m) ++ snd (calls n2 (fst (calls n1 m)))).
Proof.
  revert m. induction n1 as [|n1 IH]; intros m.
  - simpl. by destruct (calls n2 m).
  - cbn [Nat.add calls fst snd]. rewrite IH. reflexivity.
Qed.

Lemma calls_serving n c num ws :
  c + Z.of_nat n <= num ->
  calls n (mkMasterImpl c num ws)
  = (mkMasterImpl (c + Z.of_nat n) num ws, seqZ c (Z.of_nat n)).
Proof.
  revert c. induction n as [|n IH]; intros c Hc.
  - simpl. rewrite Z.add_0_r. reflexivity.
  - cbn [calls].
    destruct (NextIOItem_step (mkMasterImpl c num ws)) as (Hlt & _ & _).
    rewrite Hlt by (simpl; lia).
    cbn [fst snd next_io_item_to_allocate_ num_io_items_ workers_].
    rewrite IH by lia. cbn [fst snd].
    rewrite (seqZ_cons c) by lia.
    replace (Z.succ c) with (c + 1) by lia.
    replace (Z.pred (Z.of_nat (S n))) with (Z.of_nat n) by lia.
    do 2 f_equal. lia.
Qed.

(** The replies to [n] calls, from any state of the master. *)
Lemma calls_closed_form m n :
  let c := next_io_item_to_allocate_ m in
  let served := Z.max 0 (Z.min (Z.of_nat n) (num_io_items_ m - c)) in
  calls n m
  = (mkMasterImpl (c + served) (num_io_items_ m) (workers_ m),
     seqZ c served ++ replicate (n - Z.to_nat served) (-1)).
Proof.
  destruct m as [c num ws]. simpl.
  destruct (Z.le_gt_cases num c) as [Hdone|Hmore].
  - rewrite calls_exhausted by (simpl; lia).
    rewrite Z.max_l by lia. rewrite seqZ_nil by lia.
    rewrite Z.add_0_r, Nat.sub_0_r. reflexivity.
  - destruct (Z.le_gt_cases (Z.of_nat n) (num - c)) as [Hfew|Hmany].
    + rewrite calls_serving by lia.
      replace (Z.max 0 (Z.min (Z.of_nat n) (num - c))) with (Z.of_nat n) by lia.
      rewrite Nat2Z.id, Nat.sub_diag, app_nil_r. reflexivity.
    + replace (Z.max 0 (Z.min (Z.of_nat n) (num - c))) with (num - c) by lia.
      replace n with (Z.to_nat (num - c) + (n - Z.to_nat (num - c)))%nat at 1
        by lia.
      rewrite calls_app, calls_serving by lia. cbn [fst snd].
      rewrite calls_exhausted by (simpl; lia). cbn [fst snd].
      rewrite Z2Nat.id by lia. reflexivity.
Qed.

(** X7. From any state of the master, [n] calls to [NextIOItem] return the
    cursor, the cursor plus one, ... up to [num_io_items_ - 1], and -1 from
    then on; the cursor ends that many above where it was.  So, from a
    cursor that is not negative, no item id is returned twice; and a cursor
    at or below [num_io_items_] never passes it. *)
Theorem NextIOItem_replies m n :
  let c := next_io_item_to_allocate_ m in
  let served := Z.max 0 (Z.min (Z.of_nat n) (num_io_items_ m - c)) in
  calls n m
  = (mkMasterImpl (c + served) (num_io_items_ m) (workers_ m),
     seqZ c served ++ replicate (n - Z.to_nat served) (-1)) /\
  (0 <= c -> NoDup (filter (fun id => id <> -1) (snd (calls n m)))) /\
  (c <= num_io_items_ m ->
   next_io_item_to_allocate_ (fst (calls n m)) <= num_io_items_ m).
Proof.
  intros c served. pose proof (calls_closed_form m n) as H.
  fold c served in H. split; [exact H|]. rewrite H. simpl. split.
  - intros Hc. rewrite filter_app.
    rewrite (filter_all _ (seqZ c served))
      by (apply Forall_seqZ; intros; lia).
    rewrite (filter_none _ (replicate _ _))
      by (apply Forall_replicate; lia).
    rewrite app_nil_r. apply NoDup_seqZ.
  - intros Hc. subst served. lia.
Qed.

Lemma NextIOItem_replies_witness :
  snd (calls 5 (mkMasterImpl 1 3 [])) = [1; 2; -1; -1; -1] /\
  NoDup (filter (fun id => id <> -1) (snd (calls 5 (mkMasterImpl 1 3 [])))).
Proof.
  destruct (NextIOItem_replies (mkMasterImpl 1 3 []) 5) as (H & Hnodup & _).
  split; [rewrite H; reflexivity|]. apply Hnodup. simpl. lia.
Defined.

(** *** What [NewJob] does to the master *)

(** X8. [NewJob] leaves the cursor where it finds it.  On a master whose
    cursor is [c], after a job of [total] items is planned the calls to
    [NextIOItem] return [c], ..., [total - 1] and then -1: the items below
    [c] are handed to nobody, and when [c] is [total] or more no item is
    handed out at all. *)
Theorem NewJob_serves_from_old_cursor io_item_size work_item_size
    output_columns worker_reply m st job_params m' st' log items entries n :
  Master_NewJob io_item_size work_item_size output_columns worker_reply
    m st job_params = Ok (m', st', log) ->
  Worker_plan io_item_size job_params = Ok (items, entries) ->
  Z.of_nat (length items) < 2 ^ 31 ->
  let c := next_io_item_to_allocate_ m in
  let total := Z.of_nat (length items) in
  next_io_item_to_allocate_ m' = c /\
  snd (calls n m')
  = seqZ c (Z.max 0 (Z.min (Z.of_nat n) (total - c))) ++
    replicate (n - Z.to_nat (Z.max 0 (Z.min (Z.of_nat n) (total - c)))) (-1) /\
  (total <= c -> snd (calls n m') = replicate n (-1)) /\
  (0 <= c -> forall id, id ∈ snd (calls n m') -> id = -1 \/ c <= id < total).
Proof.
  intros H Hw Hlen c total. unfold Master_NewJob in H.
  apply bind_Ok_inv in H as (ev & _ & H).
  apply bind_Ok_inv in H as (cs & _ & H).
  apply bind_Ok_inv in H as (planned & Hp & H).
  injection H as <- _ _.
  change (Master_plan io_item_size job_params)
    with (Worker_plan io_item_size job_params) in Hp.
  rewrite Hw in Hp. injection Hp as <-. cbn [fst].
  rewrite to_i32_small by (unfold i32_range; lia). fold total.
  set (m' := mkMasterImpl _ total _).
  pose proof (calls_closed_form m' n) as Hcalls. simpl in Hcalls.
  fold c in Hcalls. rewrite Hcalls. cbn [snd].
  split; [reflexivity|]. split; [reflexivity|]. split.
  - intros Hc. rewrite Z.max_l by lia. rewrite seqZ_nil by lia.
    by rewrite Nat.sub_0_r.
  - intros Hc id Hid. apply elem_of_app in Hid as [Hid|Hid].
    + apply elem_of_seqZ in Hid. lia.
    + apply elem_of_replicate in Hid as [-> _]. by left.
Qed.

(** A master whose cursor is at 2 when a job of three items is planned. *)
Lemma NewJob_serves_from_old_cursor_witness :
  exists m' st' log,
    Master_NewJob 2 1 frame_columns (fun _ => StatusOK)
      (mkMasterImpl 2 2 ["node:5002"]) empty_storage (single_task_job 5)
    = Ok (m', st', log) /\
    snd (calls 3 m') = [2; -1; -1].
Proof.
  destruct (Master_NewJob 2 1 frame_columns (fun _ => StatusOK)
              (mkMasterImpl 2 2 ["node:5002"]) empty_storage
              (single_task_job 5))
    as [[[m' st'] log]|f] eqn:Hm; [|vm_compute in Hm; discriminate].
  destruct (Worker_plan 2 (single_task_job 5))
    as [[items entries]|f] eqn:Hw; [|vm_compute in Hw; discriminate].
  assert (Hlen : length items = 3%nat)
    by (vm_compute in Hw; injection Hw as <- _; reflexivity).
  destruct (NewJob_serves_from_old_cursor _ _ _ _ _ _ _ _ _ _ _ _ 3%nat Hm Hw)
    as (_ & Hcalls & _); [rewrite Hlen; reflexivity|].
  exists m', st', log. split; [reflexivity|].
  rewrite Hcalls, Hlen. reflexivity.
Defined.

(** X9. [NewJob] does the three things that can fail before it changes
    anything: it reads the last evaluator of the job (out of range when the
    job has none), asks the registry for its output columns, and plans.
    When one of them fails the call stops with the master, the store and the
    log of its actions exactly as they were: [num_io_items_] is not set, no
    worker is called, nothing is written.  Conversely, when the call has
    changed anything at all, the job had an evaluator, the registry knew it,
    the planner returned, and [num_io_items_] holds the number of items. *)
Theorem NewJob_stops_before_any_effect io_item_size work_item_size
    output_columns worker_reply job_params r :
  let out := Master_NewJob_steps io_item_size work_item_size output_columns
               worker_reply job_params r in
  let evaluators := proto.evaluators (proto.task_set job_params) in
  let plan := create_io_items io_item_size (proto.task_set job_params) [] [] in
  (last evaluators = None -> out = (r, Err OutOfBounds)) /\
  (forall ev f,
     last evaluators = Some ev -> output_columns (proto.name ev) = Err f ->
     out = (r, Err f)) /\
  (forall ev f,
     last evaluators = Some ev ->
     is_ok (output_columns (proto.name ev)) = true -> plan = Err f ->
     out = (r, Err f)) /\
  (fst out <> r ->
   exists ev cs items entries,
     last evaluators = Some ev /\
     output_columns (proto.name ev) = Ok cs /\
     plan = Ok (items, entries) /\
     num_io_items_ (run_master (fst out))
     = to_i32 (Z.of_nat (length items))).
Proof.
  intros out evaluators plan. subst out evaluators plan.
  unfold Master_NewJob_steps, then_, compute, inspect, Master_plan.
  split; [|split; [|split]].
  - intros ->. reflexivity.
  - intros ev f -> ->. reflexivity.
  - intros ev f -> Hcols ->.
    destruct (output_columns (proto.name ev)); [reflexivity | discriminate].
  - destruct (last (proto.evaluators (proto.task_set job_params))) as [ev|];
      [|intros H; exfalso; apply H; reflexivity].
    destruct (output_columns (proto.name ev)) as [cs|f] eqn:Hcols;
      [|intros H; exfalso; apply H; reflexivity].
    destruct (create_io_items _ _ _ _) as [[items entries]|f];
      [|intros H; exfalso; apply H; reflexivity].
    intros _. exists ev, cs, items, entries.
    split; [reflexivity|]. split; [exact Hcols|]. split; reflexivity.
Qed.

(** X10. The number of requests [NewJob] starts and joins, and the number
    of nodes it writes into the descriptor of the job, are the number of
    [RegisterWorker] calls made on the master, an address registered twice
    counting twice; without any registered worker the job is recorded all
    the same. *)
Theorem NewJob_calls_every_registration io_item_size work_item_size
    output_columns worker_reply addresses st job_params m' st' log :
  Master_NewJob io_item_size work_item_size output_columns worker_reply
    (foldl RegisterWorker MasterImpl_new addresses) st job_params
  = Ok (m', st', log) ->
  workers_ m' = addresses /\
  filter (fun a => is_spawned a = true) log
  = Spawned <$> seq 0 (length addresses) /\
  filter (fun a => is_joined a = true) log
  = (fun w => Joined w (worker_reply w)) <$> seq 0 (length addresses) /\
  (jd_num_nodes <$> last (job_descriptors st'))
  = Some (Z.of_nat (length addresses)) /\
  length (job_descriptors st') = S (length (job_descriptors st)).
Proof.
  assert (Hws : forall m,
    workers_ (foldl RegisterWorker m addresses) = workers_ m ++ addresses).
  { induction addresses as [|a l IH]; intros m; simpl.
    - by rewrite app_nil_r.
    - rewrite IH. simpl. by rewrite <- app_assoc. }
  specialize (Hws MasterImpl_new). simpl in Hws.
  intros H. unfold Master_NewJob in H.
  apply bind_Ok_inv in H as (ev & _ & H).
  apply bind_Ok_inv in H as (cs & _ & H).
  apply bind_Ok_inv in H as (planned & _ & H).
  injection H as <- <- <-. rewrite !imap_seq_0, Hws.
  split; [reflexivity|]. split; [|split; [|split]].
  - rewrite filter_cons_False by discriminate. rewrite !filter_app.
    rewrite (filter_all _ (Spawned <$> _))
      by (apply Forall_fmap, Forall_forall; intros w _; reflexivity).
    rewrite (filter_none _ (_ <$> _))
      by (apply Forall_fmap, Forall_forall; intros w _; discriminate).
    rewrite filter_none by (repeat constructor; discriminate).
    by rewrite app_nil_r.
  - rewrite filter_cons_False by discriminate. rewrite !filter_app.
    rewrite (filter_none _ (Spawned <$> _))
      by (apply Forall_fmap, Forall_forall; intros w _; discriminate).
    rewrite (filter_all _ (_ <$> _))
      by (apply Forall_fmap, Forall_forall; intros w _; reflexivity).
    rewrite filter_none by (repeat constructor; discriminate).
    by rewrite app_nil_r.
  - unfold write_job_metadata. cbn [job_descriptors]. by rewrite last_snoc.
  - unfold write_job_metadata. cbn [job_descriptors].
    rewrite length_app. simpl. lia.
Qed.

(** The same address registered twice, and no registration at all. *)
Lemma NewJob_calls_every_registration_witness :
  (exists m' st' log,
     Master_NewJob 2 1 frame_columns (fun _ => StatusOK)
       (foldl RegisterWorker MasterImpl_new ["node:5002"; "node:5002"])
       empty_storage (single_task_job 5) = Ok (m', st', log) /\
     filter (fun a => is_spawned a = true) log = [Spawned 0; Spawned 1]) /\
  (exists m' st' log,
     Master_NewJob 2 1 frame_columns (fun _ => StatusOK)
       (foldl RegisterWorker MasterImpl_new [])
       empty_storage (single_task_job 5) = Ok (m', st', log) /\
     filter (fun a => is_spawned a = true) log = [] /\
     length (job_descriptors st') = 1%nat).
Proof.
  split.
  - destruct (Master_NewJob 2 1 frame_columns (fun _ => StatusOK)
                (foldl RegisterWorker MasterImpl_new ["node:5002"; "node:5002"])
                empty_storage (single_task_job 5))
      as [[[m' st'] log]|f] eqn:H; [|vm_compute in H; discriminate].
    destruct (NewJob_calls_every_registration _ _ _ _ _ _ _ _ _ _ H)
      as (_ & Hsp & _).
    exists m', st', log. split; [reflexivity | exact Hsp].
  - destruct (Master_NewJob 2 1 frame_columns (fun _ => StatusOK)
                (foldl RegisterWorker MasterImpl_new [])
                empty_storage (single_task_job 5))
      as [[[m' st'] log]|f] eqn:H; [|vm_compute in H; discriminate].
    destruct (NewJob_calls_every_registration _ _ _ _ _ _ _ _ _ _ H)
      as (_ & Hsp & _ & _ & Hlen).
    exists m', st', log. split; [reflexivity|]. split; [exact Hsp | exact Hlen].
Defined.

(** *** Kernel binding at its edges *)

Lemma kernel_devices_gpu CPU_DEVICE num_gpus evaluator :
  proto.device_type evaluator = proto.GPU -> 0 < num_gpus ->
  kernel_devices CPU_DEVICE num_gpus evaluator
  = Ok ((fun i => mkDeviceHandle proto.GPU (i mod num_gpus))
          <$> seqZ 0 (proto.device_count evaluator)).
Proof.
  intros Hgpu Hn. unfold kernel_devices, for_i32. rewrite Hgpu.
  apply collect_Ok_fmap, Forall_seqZ. intros i Hi.
  destruct (Z.eqb_spec num_gpus 0); [lia|].
  rewrite Z.rem_mod_nonneg by lia. reflexivity.
Qed.

(** X11. A GPU evaluator at the edges: with a device count of zero or less
    it gets no device at all; with a positive count on a node without GPU
    ids, binding divides by zero; otherwise every device is a GPU whose id
    is below the number of GPU ids, and the devices are pairwise distinct
    exactly when the count does not exceed that number. *)
Theorem gpu_devices_at_the_edges CPU_DEVICE num_gpus evaluator :
  proto.device_type evaluator = proto.GPU ->
  let count := proto.device_count evaluator in
  (count <= 0 -> kernel_devices CPU_DEVICE num_gpus evaluator = Ok []) /\
  (0 < count -> num_gpus = 0 ->
   kernel_devices CPU_DEVICE num_gpus evaluator = Err DivideByZero) /\
  (0 < num_gpus ->
   exists devs,
     kernel_devices CPU_DEVICE num_gpus evaluator = Ok devs /\
     Forall (fun d => dev_type d = proto.GPU /\ 0 <= dev_id d < num_gpus) devs /\
     (NoDup devs <-> count <= num_gpus)).
Proof.
  intros Hgpu count. split; [|split].
  - intros Hc. unfold kernel_devices, for_i32. rewrite Hgpu.
    fold count. by rewrite seqZ_nil.
  - intros Hc ->. unfold kernel_devices, for_i32. rewrite Hgpu.
    fold count. rewrite seqZ_cons by lia. reflexivity.
  - intros Hn. eexists. split; [by apply kernel_devices_gpu|].
    fold count. split.
    + apply Forall_fmap, Forall_forall. intros i _. simpl.
      split; [reflexivity|]. apply Z.mod_pos_bound. lia.
    + split.
      * intros Hnodup.
        destruct (Z.le_gt_cases count num_gpus) as [|Hgt]; [assumption|].
        exfalso.
        assert (H0 : ((fun i => mkDeviceHandle proto.GPU (i mod num_gpus))
                        <$> seqZ 0 count) !! 0%nat
                     = Some (mkDeviceHandle proto.GPU 0)).
        { rewrite list_lookup_fmap, lookup_seqZ_lt by lia. simpl.
          by rewrite Z.mod_0_l by lia. }
        assert (Hn' : ((fun i => mkDeviceHandle proto.GPU (i mod num_gpus))
                         <$> seqZ 0 count) !! Z.to_nat num_gpus
                      = Some (mkDeviceHandle proto.GPU 0)).
        { rewrite list_lookup_fmap, lookup_seqZ_lt by lia. simpl.
          rewrite Z2Nat.id by lia. by rewrite Z.mod_same by lia. }
        pose proof (NoDup_lookup _ _ _ _ Hnodup H0 Hn'). lia.
      * intros Hle. apply NoDup_fmap_2_strong; [|apply NoDup_seqZ].
        intros x y Hx Hy [= Hxy].
        apply elem_of_seqZ in Hx. apply elem_of_seqZ in Hy.
        rewrite !Z.mod_small in Hxy by lia. exact Hxy.
Qed.

(** Four devices asked for on a node with three GPU ids: GPU 0 is given
    twice. *)
Lemma gpu_devices_at_the_edges_witness :
  exists devs,
    kernel_devices (mkDeviceHandle proto.CPU 0) 3
      (proto.mkEvaluator "net" proto.GPU 4 [] []) = Ok devs /\
    dev_id <$> devs = [0; 1; 2; 0] /\ ~ NoDup devs.
Proof.
  destruct (gpu_devices_at_the_edges (mkDeviceHandle proto.CPU 0) 3
              (proto.mkEvaluator "net" proto.GPU 4 [] []) eq_refl)
    as (_ & _ & Hdevs).
  destruct Hdevs as (devs & Hok & _ & Hnodup); [lia|].
  exists devs. split; [exact Hok|].
  vm_compute in Hok. injection Hok as <-. split; [reflexivity|].
  intros H. apply Hnodup in H. simpl in H. lia.
Defined.

Section BindKernels.

Variable CPU_DEVICE : DeviceHandle.
Variable GPU_DEVICE_IDS : list Z.
Variable KernelFactory : Type.
Variable get_kernel : string -> proto.DeviceType -> result KernelFactory.
Variable EvaluatorInfo : Type.
Variable get_evaluator_info : string -> result EvaluatorInfo.

Lemma kernel_input_columns_Ok_inv evaluators evaluator cols :
  kernel_input_columns EvaluatorInfo get_evaluator_info evaluators evaluator
  = Ok cols ->
  cols = concat (proto.columns <$> proto.inputs evaluator) /\
  Forall (resolvable get_evaluator_info evaluators) (proto.inputs evaluator).
Proof.
  unfold kernel_input_columns. intros H.
  apply bind_Ok_inv in H as (cs & Hcs & H). injection H as <-.
  apply collect_Ok_inv in Hcs. revert Hcs.
  generalize (proto.inputs evaluator). intros inputs Hcs.
  assert (cs = proto.columns <$> inputs /\
          Forall (resolvable get_evaluator_info evaluators) inputs)
    as [-> Hall]; [|by split].
  induction Hcs as [|input c inputs cs Hin _ IH]; [by split|].
  destruct IH as [-> Hall].
  apply bind_Ok_inv in Hin as (iev & Hget & Hin).
  apply bind_Ok_inv in Hin as (info & Hinfo & Hin). injection Hin as <-.
  split; [reflexivity|]. constructor; [|exact Hall].
  unfold get_evaluator in Hget. unfold resolvable.
  destruct (Z.ltb_spec (proto.evaluator_index input) 0); [discriminate|].
  destruct (evaluators !! _) as [iev'|] eqn:Hlook; [|discriminate].
  injection Hget as ->. split; [assumption|]. exists iev.
  split; [reflexivity|]. by rewrite Hinfo.
Qed.

Lemma kernel_input_columns_Ok_intro evaluators evaluator :
  Forall (resolvable get_evaluator_info evaluators) (proto.inputs evaluator) ->
  kernel_input_columns EvaluatorInfo get_evaluator_info evaluators evaluator
  = Ok (concat (proto.columns <$> proto.inputs evaluator)).
Proof.
  unfold kernel_input_columns. intros Hall.
  rewrite (collect_Ok_fmap _ proto.columns); [reflexivity|].
  eapply Forall_impl; [exact Hall|]. simpl.
  intros input (Hidx & iev & Hlook & Hinfo). unfold get_evaluator.
  destruct (Z.ltb_spec (proto.evaluator_index input) 0); [lia|].
  rewrite Hlook. simpl.
  destruct (get_evaluator_info (proto.name iev)); [reflexivity|discriminate].
Qed.

End BindKernels.

(** X12. What kernel binding returns, evaluator by evaluator and in order:
    the factory the kernel registry gives for the evaluator's name and
    device type, and a configuration that holds the evaluator's kernel
    arguments and, as input columns, the columns of its inputs put end to
    end in input order.  Binding asks that every input index lies inside
    the list of evaluators and that the evaluator registry knows the
    evaluator there, and that is all it asks of an input: an index outside
    the list makes binding fail, an index of the evaluator itself or of a
    later one does not. *)
Theorem bind_kernels_configs CPU_DEVICE GPU_DEVICE_IDS KernelFactory get_kernel
    EvaluatorInfo get_evaluator_info job_params :
  let evaluators := proto.evaluators (proto.task_set job_params) in
  (forall bound : list (KernelFactory * KernelConfig),
     bind_kernels CPU_DEVICE GPU_DEVICE_IDS KernelFactory get_kernel
       EvaluatorInfo get_evaluator_info job_params = Ok bound ->
     Forall2 (fun ev fc =>
       get_kernel (proto.name ev) (proto.device_type ev) = Ok (fst fc) /\
       args (snd fc) = proto.kernel_args ev /\
       input_columns (snd fc) = concat (proto.columns <$> proto.inputs ev) /\
       Forall (resolvable get_evaluator_info evaluators) (proto.inputs ev))
       evaluators bound) /\
  (forall ev input,
     ev ∈ evaluators -> input ∈ proto.inputs ev ->
     proto.evaluator_index input < 0 \/
     Z.of_nat (length evaluators) <= proto.evaluator_index input ->
     is_ok (bind_kernels CPU_DEVICE GPU_DEVICE_IDS KernelFactory get_kernel
              EvaluatorInfo get_evaluator_info job_params) = false) /\
  (forall ev,
     Forall (resolvable get_evaluator_info evaluators) (proto.inputs ev) ->
     kernel_input_columns EvaluatorInfo get_evaluator_info evaluators ev
     = Ok (concat (proto.columns <$> proto.inputs ev))).
Proof.
  intros evaluators.
  assert (Hshape : forall bound : list (KernelFactory * KernelConfig),
    bind_kernels CPU_DEVICE GPU_DEVICE_IDS KernelFactory get_kernel
      EvaluatorInfo get_evaluator_info job_params = Ok bound ->
    Forall2 (fun ev fc =>
      get_kernel (proto.name ev) (proto.device_type ev) = Ok (fst fc) /\
      args (snd fc) = proto.kernel_args ev /\
      input_columns (snd fc) = concat (proto.columns <$> proto.inputs ev) /\
      Forall (resolvable get_evaluator_info evaluators) (proto.inputs ev))
      evaluators bound).
  { intros bound H. unfold bind_kernels in H. apply collect_Ok_inv in H.
    eapply Forall2_impl; [exact H|]. simpl. intros ev fc Hb.
    unfold bind_kernel in Hb.
    apply bind_Ok_inv in Hb as (kf & Hkf & Hb).
    apply bind_Ok_inv in Hb as (cols & Hcols & Hb).
    apply bind_Ok_inv in Hb as (devs & _ & Hb). injection Hb as <-.
    apply kernel_input_columns_Ok_inv in Hcols as [-> Hall]. simpl.
    auto. }
  split; [exact Hshape|]. split.
  - intros ev input Hev Hin Hidx.
    apply not_true_is_false. intros Hok.
    destruct (bind_kernels _ _ _ _ _ _ _) as [bound|f]; [|discriminate].
    specialize (Hshape bound eq_refl). rename Hshape into H.
    apply list_elem_of_lookup in Hev as [k Hk].
    destruct (Forall2_lookup_l _ _ _ _ _ H Hk) as (fc & _ & _ & _ & _ & Hall).
    eapply Forall_forall in Hall; [|exact Hin].
    destruct Hall as (Hpos & iev & Hlook & _).
    apply lookup_lt_Some in Hlook. fold evaluators in Hlook. lia.
  - intros ev. apply kernel_input_columns_Ok_intro.
Qed.

(** An evaluator that takes a column of itself and one of the evaluator
    after it. *)
Lemma bind_kernels_configs_witness :
  exists bound,
    bind_kernels (mkDeviceHandle proto.CPU 0) [0] unit (fun _ _ => Ok tt)
      unit (fun _ => Ok tt) forward_job = Ok bound /\
    input_columns <$> (snd <$> bound) = [["a"; "b"]; []] /\
    is_ok (bind_kernels (mkDeviceHandle proto.CPU 0) [0] unit
             (fun _ _ => Ok tt) unit (fun _ => Ok tt) dangling_job) = false.
Proof.
  destruct (bind_kernels_configs (mkDeviceHandle proto.CPU 0) [0] unit
              (fun _ _ => Ok tt) unit (fun _ => Ok tt) dangling_job)
    as (_ & Hfail & _).
  destruct (bind_kernels (mkDeviceHandle proto.CPU 0) [0] unit
              (fun _ _ => Ok tt) unit (fun _ => Ok tt) forward_job)
    as [bound|f] eqn:H; [|vm_compute in H; discriminate].
  exists bound. split; [reflexivity|]. split.
  - vm_compute in H. injection H as <-. reflexivity.
  - apply (Hfail (proto.mkEvaluator "first" proto.CPU 1 []
                    [proto.mkEvaluatorInput 2 ["a"]])
                 (proto.mkEvaluatorInput 2 ["a"])).
    + apply elem_of_cons. by left.
    + apply elem_of_cons. by left.
    + right. simpl. lia.
Defined.

(** *** What the control loop pushes *)

Lemma NextIOItem_cursor m :
  next_io_item_to_allocate_ m <= next_io_item_to_allocate_ (fst (NextIOItem m)) /\
  num_io_items_ (fst (NextIOItem m)) = num_io_items_ m /\
  (snd (NextIOItem m) <> -1 ->
   snd (NextIOItem m) = next_io_item_to_allocate_ m /\
   next_io_item_to_allocate_ (fst (NextIOItem m))
   = next_io_item_to_allocate_ m + 1 /\
   next_io_item_to_allocate_ m < num_io_items_ m).
Proof.
  unfold NextIOItem.
  destruct (Z.ltb_spec (next_io_item_to_allocate_ m) (num_io_items_ m));
    simpl; repeat split; lia.
Qed.

Lemma calls_cursor n m :
  next_io_item_to_allocate_ m <= next_io_item_to_allocate_ (fst (calls n m)) /\
  num_io_items_ (fst (calls n m)) = num_io_items_ m.
Proof. rewrite calls_closed_form. simpl. lia. Qed.

Lemma StronglySorted_lt_NoDup (l : list Z) : StronglySorted Z.lt l -> NoDup l.
Proof.
  induction 1 as [|x l _ IH Hx]; constructor; [|exact IH].
  intros Hin. eapply Forall_forall in Hx; [|exact Hin]. lia.
Qed.

(** X13. Whatever the other threads and workers do, the control loop keeps
    this: [accepted_items] is the number of entries pushed into the load
    queue; every pushed entry is the one the worker holds at the item id
    the master replied; and, the entries sitting at their index, the item
    ids of the pushed entries go strictly up and stay below the master's
    cursor, so that no entry is pushed twice. *)
Theorem control_loop_pushes_each_item_once PUS_PER_NODE TASKS_IN_QUEUE_PER_PU
    load_work_entries c :
  aligned load_work_entries ->
  reachable PUS_PER_NODE TASKS_IN_QUEUE_PER_PU load_work_entries c ->
  accepted_items c = Z.of_nat (length (load_pushed c)) /\
  Forall (fun e =>
    load_work_entries !! Z.to_nat (io_item_index e) = Some e /\
    0 <= io_item_index e < next_io_item_to_allocate_ (master c))
    (load_pushed c) /\
  StronglySorted Z.lt (io_item_index <$> load_pushed c) /\
  NoDup (load_pushed c).
Proof.
  intros Hal Hreach.
  assert (Hinv :
    accepted_items c = Z.of_nat (length (load_pushed c)) /\
    Forall (fun e =>
      load_work_entries !! Z.to_nat (io_item_index e) = Some e /\
      0 <= io_item_index e < next_io_item_to_allocate_ (master c))
      (load_pushed c) /\
    StronglySorted Z.lt (io_item_index <$> load_pushed c)).
  { induction Hreach as [m | c c' _ IH Hstep | c t c' _ IH Hstep].
    - simpl. repeat split; constructor.
    - destruct IH as (Hacc & Hall & Hsorted).
      destruct Hstep as (-> & -> & _ & n & ->).
      pose proof (calls_cursor n (master c)) as [Hcur _].
      split; [exact Hacc|]. split; [|exact Hsorted].
      eapply Forall_impl; [exact Hall|]. simpl. intros e0 [? ?]. split; [done|lia].
    - destruct IH as (Hacc & Hall & Hsorted).
      unfold control_turn in Hstep.
      pose proof (NextIOItem_cursor (master c)) as (Hcur & _ & Hid).
      destruct (_ <? _).
      + destruct (Z.eqb_spec (snd (NextIOItem (master c))) (-1)) as [|Hne].
        * injection Hstep as _ <-. simpl.
          split; [exact Hacc|]. split; [|exact Hsorted].
          eapply Forall_impl; [exact Hall|]. simpl. intros e0 [? ?].
          split; [done|lia].
        * apply bind_Ok_inv in Hstep as (e & He & Hstep).
          injection Hstep as _ <-. simpl.
          destruct (Hid Hne) as (Hreply & Hnext & _).
          unfold entry_at in He.
          destruct (Z.ltb_spec (snd (NextIOItem (master c))) 0);
            [discriminate|].
          destruct (load_work_entries !! _) as [e'|] eqn:Hlook;
            [|discriminate].
          injection He as ->.
          pose proof (Hal _ _ Hlook) as Hidx.
          rewrite Z2Nat.id in Hidx by lia.
          split; [rewrite length_app; simpl; lia|]. split.
          -- apply Forall_app. split.
             ++ eapply Forall_impl; [exact Hall|]. simpl. intros e0 [? ?].
                split; [done|lia].
             ++ constructor; [|constructor]. rewrite Hidx.
                split; [exact Hlook | lia].
          -- rewrite fmap_app. apply StronglySorted_app_2.
             ++ intros x1 x2 Hx1 Hx2.
                apply list_elem_of_fmap in Hx1 as (e1 & -> & He1).
                apply list_elem_of_singleton in Hx2 as ->.
                eapply Forall_forall in Hall; [|exact He1]. lia.
             ++ exact Hsorted.
             ++ repeat constructor.
      + injection Hstep as _ <-. auto. }
  destruct Hinv as (Hacc & Hall & Hsorted). repeat split; try assumption.
  eapply NoDup_fmap_1, StronglySorted_lt_NoDup, Hsorted.
Qed.

(** The state after the items 0 and 1 of five rows have been accepted. *)
Lemma control_loop_pushes_each_item_once_witness :
  let c := mkControl 2 0 (take 2 five_row_entries) (mkMasterImpl 2 3 []) in
  io_item_index <$> load_pushed c = [0; 1] /\ NoDup (load_pushed c).
Proof.
  intros c.
  assert (Hreach : reachable 1 2 five_row_entries c).
  { apply (reach_turn 1 2 _
             (mkControl 1 0 (take 1 five_row_entries) (mkMasterImpl 1 3 []))
             (Accepted 1)); [|reflexivity].
    apply (reach_turn 1 2 _ (mkControl 0 0 [] (mkMasterImpl 0 3 []))
             (Accepted 0)); [|reflexivity].
    apply reach_start. }
  assert (Hal : aligned five_row_entries).
  { intros [|[|[|k]]] e He; vm_compute in He; try discriminate;
      injection He as <-; reflexivity. }
  destruct (control_loop_pushes_each_item_once 1 2 five_row_entries c
              Hal Hreach) as (_ & _ & _ & Hnodup).
  split; [reflexivity | exact Hnodup].
Defined.

(** X14. A turn of the control loop cannot read outside the worker's array
    as long as the master's cursor is not negative and its item count is at
    most the size of the array, and neither the turn nor the other threads
    and workers undo that; this is the case after [NewJob] on a master with
    such a cursor when the worker has planned the same job with the same
    IO_ITEM_SIZE.  When the master holds more items than the worker has
    entries, the turn that receives an id past the array reads outside
    it. *)
Theorem control_turn_stays_in_range PUS_PER_NODE TASKS_IN_QUEUE_PER_PU
    load_work_entries :
  (forall c,
     master_fits load_work_entries (master c) ->
     exists t c',
       control_turn PUS_PER_NODE TASKS_IN_QUEUE_PER_PU load_work_entries c
       = Ok (t, c') /\
       master_fits load_work_entries (master c')) /\
  (forall c c',
     master_fits load_work_entries (master c) -> others_step c c' ->
     master_fits load_work_entries (master c')) /\
  (forall c,
     to_i32 (accepted_items c - retired_items c)
     < PUS_PER_NODE * TASKS_IN_QUEUE_PER_PU ->
     Z.of_nat (length load_work_entries)
     <= next_io_item_to_allocate_ (master c) < num_io_items_ (master c) ->
     control_turn PUS_PER_NODE TASKS_IN_QUEUE_PER_PU load_work_entries c
     = Err OutOfBounds) /\
  (forall io_item_size work_item_size output_columns worker_reply m st
          job_params m' st' log items,
     Master_NewJob io_item_size work_item_size output_columns worker_reply
       m st job_params = Ok (m', st', log) ->
     Worker_plan io_item_size job_params = Ok (items, load_work_entries) ->
     Z.of_nat (length items) < 2 ^ 31 ->
     0 <= next_io_item_to_allocate_ m ->
     master_fits load_work_entries m').
Proof.
  unfold master_fits. split; [|split; [|split]].
  - intros c [Hnext Hnum]. unfold control_turn.
    pose proof (NextIOItem_cursor (master c)) as (Hcur & Hsame & Hid).
    destruct (_ <? _); [|eauto].
    destruct (Z.eqb_spec (snd (NextIOItem (master c))) (-1)) as [|Hne].
    + do 2 eexists. split; [reflexivity|]. simpl. lia.
    + destruct (Hid Hne) as (Hreply & Hnext' & Hlt). unfold entry_at.
      destruct (Z.ltb_spec (snd (NextIOItem (master c))) 0); [lia|].
      destruct (lookup_lt_is_Some_2 load_work_entries
                  (Z.to_nat (snd (NextIOItem (master c))))) as [e He]; [lia|].
      rewrite He. simpl. do 2 eexists. split; [reflexivity|]. simpl. lia.
  - intros c c' [Hnext Hnum] (_ & _ & _ & n & ->).
    pose proof (calls_cursor n (master c)). lia.
  - intros c Hwork [Hlen Hlt]. unfold control_turn.
    destruct (Z.ltb_spec (to_i32 (accepted_items c - retired_items c))
                (PUS_PER_NODE * TASKS_IN_QUEUE_PER_PU)); [|lia].
    unfold NextIOItem.
    destruct (Z.ltb_spec (next_io_item_to_allocate_ (master c))
                (num_io_items_ (master c))); [|lia].
    cbn [fst snd].
    destruct (Z.eqb_spec (next_io_item_to_allocate_ (master c)) (-1)); [lia|].
    unfold entry_at.
    destruct (Z.ltb_spec (next_io_item_to_allocate_ (master c)) 0); [lia|].
    rewrite lookup_ge_None_2 by lia. reflexivity.
  - intros io wis cols reply m st jp m' st' log items H Hw Hlen Hnext.
    unfold Master_NewJob in H.
    apply bind_Ok_inv in H as (ev & _ & H).
    apply bind_Ok_inv in H as (cs & _ & H).
    apply bind_Ok_inv in H as (planned & Hp & H).
    injection H as <- _ _.
    change (Master_plan io jp) with (Worker_plan io jp) in Hp.
    rewrite Hw in Hp. injection Hp as <-. cbn [fst].
    rewrite to_i32_small by (unfold i32_range; lia). simpl.
    split; [exact Hnext|].
    unfold Worker_plan, create_io_items, create_io_items_with_warmup in Hw.
    apply plan_tasks_graph in Hw as (items0 & entries0 & [= -> ->] & Hpl).
    simpl. rewrite (planned_length _ _ _ _ _ _ _ Hpl). lia.
Qed.

(** A worker that cut five rows with IO_ITEM_SIZE = 2 (three entries): the
    turn is in range on a master with three items, and reads outside the
    array on a master that cut the same rows with IO_ITEM_SIZE = 1. *)
Lemma control_turn_stays_in_range_witness :
  is_ok (control_turn 1 2 five_row_entries
           (mkControl 0 0 [] (mkMasterImpl 2 3 []))) = true /\
  control_turn 1 2 five_row_entries (mkControl 0 0 [] (mkMasterImpl 3 5 []))
  = Err OutOfBounds.
Proof.
  destruct (control_turn_stays_in_range 1 2 five_row_entries)
    as (Hfit & _ & Hout & _).
  split.
  - destruct (Hfit (mkControl 0 0 [] (mkMasterImpl 2 3 [])))
      as (t & c' & -> & _); [|reflexivity].
    split; simpl; [lia | vm_compute; discriminate].
  - apply Hout; [reflexivity|]. simpl. vm_compute. split; [discriminate|reflexivity].
Defined.

(** *** A join that fails *)

Section DrainStops.

Variable pthread_join : stage -> Z -> Z.

#[local] Abbreviation stops := (stops_within pthread_join).

Lemma stops_within_done log : stops log (log, false).
Proof. unfold stops_within. simpl. repeat split; [done | discriminate]. Qed.

Lemma stops_within_joins s threads :
  stops (Join s <$> threads) (joins_from pthread_join s threads).
Proof.
  induction threads as [|i threads IH]; [apply stops_within_done|].
  cbn [joins_from]. rewrite fmap_cons.
  destruct (Z.eqb_spec (pthread_join s i) 0) as [Hok|Hfail].
  - destruct (joins_from pthread_join s threads) as [log exited].
    destruct IH as (Hpre & Hfull & Hlast). unfold and_then, stops_within.
    cbn [fst snd] in *. repeat split.
    + by apply (prefix_app [_]).
    + intros ->. by rewrite Hfull.
    + intros ->. destruct Hlast as (s' & i' & Hl & Hne); [reflexivity|].
      exists s', i'. split; [|exact Hne]. by rewrite last_app, Hl.
  - repeat split; simpl.
    + by apply (prefix_app_r [_] [_]).
    + discriminate.
    + intros _. eauto.
Qed.

Lemma stops_within_and_then full1 full2 d1 d2 :
  stops full1 d1 -> stops full2 d2 ->
  stops (full1 ++ full2) (and_then d1 d2).
Proof.
  intros (Hpre1 & Hfull1 & Hlast1) (Hpre2 & Hfull2 & Hlast2).
  unfold and_then, stops_within.
  destruct d1 as [log1 [|]], d2 as [log2 exited2]; cbn [fst snd] in *.
  - repeat split; [by apply prefix_app_r | discriminate | auto].
  - rewrite Hfull1 by reflexivity. repeat split.
    + by apply prefix_app.
    + intros H. by rewrite Hfull2.
    + intros H. destruct (Hlast2 H) as (s & i & Hl & Hne).
      exists s, i. split; [|exact Hne]. by rewrite last_app, Hl.
Qed.

End DrainStops.


(** *** Threads created, threads joined *)

Lemma drain_all_joined LOAD_WORKERS_PER_NODE PUS_PER_NODE SAVE_WORKERS_PER_NODE
    pthread_join :
  (forall s i, pthread_join s i = 0) ->
  drain LOAD_WORKERS_PER_NODE PUS_PER_NODE SAVE_WORKERS_PER_NODE pthread_join
  = (full_drain LOAD_WORKERS_PER_NODE PUS_PER_NODE SAVE_WORKERS_PER_NODE, false).
Proof.
  intros Hjoin. unfold drain, pushes, full_drain.
  rewrite !joins_all by exact Hjoin.
  rewrite !repeat_i32_singleton, !and_then_running. cbn [fst snd].
  rewrite !fmap_constant, !length_seqZ. reflexivity.
Qed.

Lemma omap_fmap_Some {A B C} (f : B -> option C) (g : A -> B) (h : A -> C)
    (l : list A) :
  (forall x, f (g x) = Some (h x)) -> omap f (g <$> l) = h <$> l.
Proof.
  intros H. induction l as [|x l IH]; [reflexivity|].
  rewrite !fmap_cons. cbn [omap list_omap]. rewrite H. simpl.
  f_equal. exact IH.
Qed.

Lemma omap_fmap_None {A B C} (f : B -> option C) (g : A -> B) (l : list A) :
  (forall x, f (g x) = None) -> omap f (g <$> l) = [].
Proof.
  intros H. induction l as [|x l IH]; [reflexivity|].
  rewrite fmap_cons. cbn [omap list_omap]. rewrite H. exact IH.
Qed.

Lemma omap_replicate_None {B C} (f : B -> option C) (x : B) n :
  f x = None -> omap f (replicate n x) = [].
Proof.
  intros H. induction n as [|n IH]; [reflexivity|].
  cbn [replicate omap list_omap]. rewrite H. exact IH.
Qed.

Lemma created_per_pu (l : list Z) :
  omap created
    (concat ((fun pu => [Create PreEval pu; Create Eval pu; Create PostEval pu])
             <$> l))
  ≡ₚ (pair PreEval <$> l) ++ (pair Eval <$> l) ++ (pair PostEval <$> l).
Proof.
  induction l as [|pu l IH]; [reflexivity|].
  rewrite !fmap_cons. cbn [concat]. rewrite omap_app, IH. simpl.
  constructor. rewrite <- !Permutation_middle. reflexivity.
Qed.

(** X16. When no join fails, the threads the worker joins are the threads
    it has created, each of them once: the two lists are the same up to
    their order. *)
Theorem every_thread_is_joined_once LOAD_WORKERS_PER_NODE PUS_PER_NODE
    SAVE_WORKERS_PER_NODE pthread_join :
  (forall s i, pthread_join s i = 0) ->
  omap created
    (launch LOAD_WORKERS_PER_NODE PUS_PER_NODE SAVE_WORKERS_PER_NODE)
  ≡ₚ omap joined
       (fst (drain LOAD_WORKERS_PER_NODE PUS_PER_NODE SAVE_WORKERS_PER_NODE
               pthread_join)).
Proof.
  intros Hjoin. rewrite drain_all_joined by exact Hjoin. cbn [fst].
  unfold launch, full_drain. rewrite !repeat_i32_singleton.
  rewrite !omap_app.
  rewrite !(omap_fmap_Some created (Create _) (pair _)) by reflexivity.
  rewrite !(omap_fmap_Some joined (Join _) (pair _)) by reflexivity.
  rewrite !(omap_fmap_None joined (fun pu => Push _ _)) by reflexivity.
  rewrite !(omap_replicate_None joined) by reflexivity.
  unfold repeat_i32. rewrite created_per_pu. simpl.
  rewrite <- !app_assoc. reflexivity.
Qed.

(** Two load threads, one PU, one save thread. *)
Lemma every_thread_is_joined_once_witness :
  omap created (launch 2 1 1)
  = [(Load, 0); (Load, 1); (PreEval, 0); (Eval, 0); (PostEval, 0); (Save, 0)] /\
  omap created (launch 2 1 1) ≡ₚ omap joined (fst (drain 2 1 1 (fun _ _ => 0))).
Proof.
  split; [reflexivity|].
  apply (every_thread_is_joined_once 2 1 1 (fun _ _ => 0)). reflexivity.
Defined.

(** *** The queues between the stages *)

(** X17. The queues as the thread arguments wire them.  What a load thread
    pushes is what the pre-evaluate threads pop; what the evaluate thread of
    a PU pushes is what its post-evaluate thread pops; what a post-evaluate
    thread pushes is what the save threads pop.  But the queue the
    pre-evaluate thread of a PU pushes into (queue 0 of the PU) is popped by
    no thread, and the queue its evaluate thread pops from (queue 1) is
    pushed into by no thread. *)
Theorem pipeline_wiring pu :
  output_queue Load pu = Some (input_queue PreEval pu) /\
  output_queue Eval pu = Some (input_queue PostEval pu) /\
  output_queue PostEval pu = Some (input_queue Save pu) /\
  (forall s i, output_queue PreEval pu <> Some (input_queue s i)) /\
  (forall s i, output_queue s i <> Some (input_queue Eval pu)).
Proof.
  repeat split; intros s i; destruct s; simpl; congruence.
Qed.

(** *** The profiler file *)

Lemma records_of_app component out1 out2 :
  records_of component (out1 ++ out2)
  = records_of component out1 ++ records_of component out2.
Proof. apply filter_app. Qed.

Lemma records_of_repeat component n body (k : nat) :
  (forall i, length (records_of component (body i)) = k) ->
  length (records_of component (repeat_writes n body)) = (k * Z.to_nat n)%nat.
Proof.
  intros Hk. unfold repeat_writes. rewrite <- (length_seqZ 0 n).
  induction (seqZ 0 n) as [|i l IH].
  - simpl length. rewrite Nat.mul_0_r. reflexivity.
  - rewrite fmap_cons. cbn [concat].
    rewrite records_of_app, length_app, Hk, IH. simpl length. lia.
Qed.

Lemma count_byte_repeat n body :
  (forall i, omap count_byte (body i) = []) ->
  omap count_byte (repeat_writes n body) = [].
Proof.
  intros H. unfold repeat_writes.
  induction (seqZ 0 n) as [|i l IH]; [reflexivity|].
  rewrite fmap_cons. cbn [concat]. by rewrite omap_app, H, IH.
Qed.



(** *** Planning as a function of the tasks and the constants *)

Lemma planned_entries_with_warmup io_item_size warmup_size tasks items entries :
  planned io_item_size warmup_size 0 tasks 0 items entries ->
  0 <= warmup_size ->
  entries = all_entries_with_warmup warmup_size tasks items.
Proof.
  intros Hpl Hw.
  pose proof (planned_windows _ _ _ _ _ _ _ Hpl Hw) as Hwin.
  pose proof (planned_index _ _ _ _ _ _ _ Hpl) as Hidx.
  pose proof (planned_length _ _ _ _ _ _ _ Hpl) as Hlen.
  apply list_eq. intros k. unfold all_entries_with_warmup.
  rewrite list_lookup_imap.
  destruct (items !! k) as [it|] eqn:Hit; destruct (entries !! k) as [e|] eqn:He;
    simpl.
  - destruct (Forall2_lookup_lr _ _ _ _ _ _ Hwin Hit He)
      as (task & _ & Hlook & Hsam & _).
    specialize (Hidx _ _ He). rewrite Z.sub_0_r in Hlook.
    unfold entry_with_warmup. rewrite Hlook. destruct e as [idx ss].
    simpl in *. f_equal. f_equal; [lia | exact Hsam].
  - apply lookup_lt_Some in Hit. apply lookup_ge_None in He. lia.
  - apply lookup_lt_Some in He. apply lookup_ge_None in Hit. lia.
  - reflexivity.
Qed.

(** Two positive strides that differ cut a task with more rows than the
    smaller of them differently. *)
Lemma task_items_differ io_item_size io_item_size' j n :
  0 < io_item_size -> 0 < io_item_size' -> io_item_size <> io_item_size' ->
  Z.min io_item_size io_item_size' < n ->
  task_items io_item_size j n <> task_items io_item_size' j n.
Proof.
  intros Hio Hio' Hne Hn. unfold task_items.
  pose proof (items_in_task_spec io_item_size n 0 Hio) as H0.
  pose proof (items_in_task_spec io_item_size' n 0 Hio') as H0'.
  rewrite (seqZ_cons 0 (items_in_task io_item_size n)) by lia.
  rewrite (seqZ_cons 0 (items_in_task io_item_size' n)) by lia.
  rewrite !fmap_cons. unfold nth_item at 1 3. intros [= Hend _]. lia.
Qed.

(** C7. What the planner makes of a task set is fixed by the tasks,
    IO_ITEM_SIZE and the warmup, and by nothing else.  For a positive
    IO_ITEM_SIZE and a warmup that is not negative: whether it returns is
    decided by the tasks alone; the arrays it returns are the closed forms
    of the tasks and the two constants; the planning steps of
    [MasterImpl::NewJob] and of [WorkerImpl::NewJob] are this planner at
    warmup 0 on the task set of the job, so that with the same IO_ITEM_SIZE
    the worker builds the arrays the master has built, and the count the
    master keeps is the size of that closed form.  The constant does
    matter: with two different IO_ITEM_SIZEs the item arrays differ as soon
    as a task has more rows than the smaller one. *)
Theorem planning_is_fixed_by_tasks_and_constants io_item_size warmup_size
    task_set :
  0 < io_item_size -> 0 <= warmup_size ->
  let tasks := proto.tasks task_set in
  let run := create_io_items_with_warmup io_item_size warmup_size task_set [] [] in
  (is_ok run = true <-> Forall covered tasks) /\
  (forall items entries,
     run = Ok (items, entries) ->
     items = all_items io_item_size tasks /\
     entries = all_entries_with_warmup warmup_size tasks items) /\
  (forall job_params,
     proto.task_set job_params = task_set ->
     Master_plan io_item_size job_params
     = create_io_items_with_warmup io_item_size 0 task_set [] [] /\
     Worker_plan io_item_size job_params
     = create_io_items_with_warmup io_item_size 0 task_set [] [] /\
     forall items entries,
       Worker_plan io_item_size job_params = Ok (items, entries) ->
       Master_plan io_item_size job_params
       = Ok (all_items io_item_size tasks,
             all_entries_with_warmup 0 tasks (all_items io_item_size tasks)) /\
       items = all_items io_item_size tasks /\
       entries
       = all_entries_with_warmup 0 tasks (all_items io_item_size tasks)) /\
  (forall work_item_size output_columns worker_reply m st job_params m' st' log,
     proto.task_set job_params = task_set ->
     Master_NewJob io_item_size work_item_size output_columns worker_reply
       m st job_params = Ok (m', st', log) ->
     num_io_items_ m'
     = to_i32 (Z.of_nat (length (all_items io_item_size tasks)))) /\
  (forall io_item_size' items entries items' entries' j task,
     0 < io_item_size' -> io_item_size <> io_item_size' ->
     run = Ok (items, entries) ->
     create_io_items_with_warmup io_item_size' warmup_size task_set [] []
     = Ok (items', entries') ->
     tasks !! j = Some task ->
     Z.min io_item_size io_item_size' < rows_in_task task ->
     items <> items').
Proof.
  intros Hio Hw tasks run.
  assert (Hclosed : forall io w items entries,
    0 < io -> 0 <= w ->
    create_io_items_with_warmup io w task_set [] [] = Ok (items, entries) ->
    items = all_items io tasks /\
    entries = all_entries_with_warmup w tasks items).
  { intros io w items entries Hio0 Hw0 H.
    unfold create_io_items_with_warmup in H.
    apply plan_tasks_graph in H as (items0 & entries0 & [= -> ->] & Hpl).
    simpl in Hpl. split.
    - rewrite (planned_closed_form _ Hio0 _ _ _ _ _ _ Hpl). unfold all_items.
      f_equal.
    - by eapply planned_entries_with_warmup. }
  split; [|split; [|split; [|split]]].
  - unfold run, create_io_items_with_warmup. split.
    + destruct (plan_tasks io_item_size warmup_size 0 (proto.tasks task_set)
                  [] []) as [out|f] eqn:H; [intros _ | discriminate].
      apply plan_tasks_graph in H as (items & entries & _ & Hpl).
      eapply planned_covered; [exact Hpl | exact Hw].
    + intros Hcov. by apply plan_tasks_total.
  - intros items entries H. by apply Hclosed.
  - intros jp <-. split; [reflexivity|]. split; [reflexivity|].
    intros items entries H.
    unfold Master_plan, Worker_plan, create_io_items in *.
    destruct (Hclosed _ _ _ _ Hio (Z.le_refl 0) H) as [-> ->].
    split; [exact H|]. by split.
  - intros wis cols reply m st jp m' st' log <- H.
    unfold Master_NewJob in H.
    apply bind_Ok_inv in H as (ev & _ & H).
    apply bind_Ok_inv in H as (cs & _ & H).
    apply bind_Ok_inv in H as ([items entries] & Hp & H).
    injection H as <- _ _.
    unfold Master_plan, create_io_items in Hp.
    destruct (Hclosed _ _ _ _ Hio (Z.le_refl 0) Hp) as [-> _]. reflexivity.
  - intros io' items entries items' entries' j task Hio' Hne H H' Hj Hn Heq.
    subst items'. unfold run, create_io_items_with_warmup in H, H'.
    apply plan_tasks_graph in H as (items0 & entries0 & [= -> ->] & Hpl).
    apply plan_tasks_graph in H' as (items1 & entries1 & [= Heq ->] & Hpl').
    simpl in *. subst items1.
    destruct (planned_items_of_task _ _ _ _ _ _ _ j task Hpl Hj)
      as (b & es & Hsl).
    destruct (planned_items_of_task _ _ _ _ _ _ _ j task Hpl' Hj)
      as (b' & es' & Hsl').
    pose proof (rows_in_task_nonneg task).
    apply (slices_closed_form _ Hio) in Hsl; [|lia].
    apply (slices_closed_form _ Hio') in Hsl'; [|lia].
    rewrite Z.sub_0_r in Hsl, Hsl'.
    eapply (task_items_differ io_item_size io'); [exact Hio | exact Hio'
      | exact Hne | exact Hn |].
    unfold task_items. rewrite <- Hsl, <- Hsl'. reflexivity.
Qed.

(** Four rows cut with IO_ITEM_SIZE = 2 and one row of warmup; the same
    rows cut with IO_ITEM_SIZE = 1 give other items. *)
Lemma planning_is_fixed_by_tasks_and_constants_witness :
  exists items entries items' entries',
    create_io_items_with_warmup 2 1 (single_task 4) [] [] = Ok (items, entries) /\
    create_io_items_with_warmup 1 1 (single_task 4) [] []
    = Ok (items', entries') /\
    items = [mkIOItem 0 0 0 2; mkIOItem 0 1 2 4] /\
    (fun e => proto.rows <$> samples e) <$> entries
    = [[[100; 101]]; [[101; 102; 103]]] /\
    items <> items'.
Proof.
  destruct (create_io_items_with_warmup 2 1 (single_task 4) [] [])
    as [[items entries]|f] eqn:H; [|vm_compute in H; discriminate].
  destruct (create_io_items_with_warmup 1 1 (single_task 4) [] [])
    as [[items' entries']|f] eqn:H'; [|vm_compute in H'; discriminate].
  destruct (planning_is_fixed_by_tasks_and_constants 2 1 (single_task 4))
    as (_ & Hclosed & _ & _ & Hdiffer); [lia | lia |].
  destruct (Hclosed items entries H) as [Hitems Hentries].
  exists items, entries, items', entries'.
  split; [reflexivity|]. split; [reflexivity|]. split; [|split].
  - rewrite Hitems. reflexivity.
  - rewrite Hentries, Hitems. reflexivity.
  - apply (Hdiffer 1 items entries items' entries' 0%nat
             (proto.mkTask [one_sample (seqZ 100 4)]));
      [lia | lia | exact H | exact H' | reflexivity |].
    vm_compute. reflexivity.
Defined.
